(** * CliMenu: a shallow embedding of Carlo47/CliMenu

    The repository holds two Arduino sketches, [src/main.cpp] (ESP32, menu
    actions taking a [const char*] argument) and [src/cliMenu.cpp] (the
    earlier variant with argument-less actions).  Both are a static table of
    menu items, a dispatcher [doMenu] that reads one key from the serial
    port and calls the action bound to it, a handful of actions that drain
    the serial port into a number or a text, and a [heartbeat] that drives
    a LED from [millis()].

    The sketches are modelled as state transformers over the board (serial
    port, clock, GPIO, real-time clock) and the sketch's globals.  The
    Arduino core and the C library are not part of the repository; the
    functions the sketches call ([Stream::parseInt], [sscanf], [mktime],
    ...) are modelled here after their documented behaviour on the ESP32
    (32-bit [int] and [long], IEEE binary32 [float], binary64 [double]).

    Time is counted in milliseconds since boot.  Every byte of the serial
    input carries the time at which it reaches the receive buffer; the
    clock moves when the code waits ([delay], the polling loops of
    [Stream], [getLocalTime]) and between two passes of [loop], and
    computing takes no time. *)

From Stdlib Require Import ZArith List String Ascii Bool Lia SpecFloat DecimalString.
From stdpp Require Import base option list gmap.

Local Open Scope Z_scope.

(** ** Machine integers and characters *)

(** [uint32_t] / [unsigned long] arithmetic wraps modulo 2^32. *)
Definition wrap_u32 (z : Z) : Z := z mod 2 ^ 32.

(** [int32_t] / [long]: two's complement wrap-around. *)
Definition wrap_i32 (z : Z) : Z := (z + 2 ^ 31) mod 2 ^ 32 - 2 ^ 31.

Definition code (c : ascii) : Z := Z.of_N (N_of_ascii c).

(** [c >= '0' && c <= '9'] *)
Definition is_digit (c : ascii) : bool := (48 <=? code c) && (code c <=? 57).

Definition is_minus (c : ascii) : bool := Ascii.eqb c "-".
Definition is_dot (c : ascii) : bool := Ascii.eqb c ".".

(** [NO_SKIP_CHAR], the "magic char not found in a valid ASCII numeric
    field" that [parseInt()] and [parseFloat()] pass as the character to
    ignore. *)
Definition NO_SKIP_CHAR : ascii := "001".
Definition is_skip (c : ascii) : bool := Ascii.eqb c NO_SKIP_CHAR.

(** [isspace] in the C locale. *)
Definition isspace (c : ascii) : bool := (code c =? 32) || ((9 <=? code c) && (code c <=? 13)).

Definition CR : string := String "013" EmptyString.
Definition LF : string := String "010" EmptyString.

(** Conversion of the [int] returned by [Serial.read()] to [char]: a byte is
    itself, the failure value -1 becomes the byte 0xFF. *)
Definition char_of_read (r : option ascii) : ascii :=
  match r with
  | Some c => c
  | None => "255"
  end.

(** ** The board *)

(** [struct tm] *)
Record tm := mk_tm {
  tm_sec : Z; tm_min : Z; tm_hour : Z; tm_mday : Z; tm_mon : Z; tm_year : Z;
  tm_wday : Z; tm_yday : Z; tm_isdst : Z
}.

(** [struct timeval] *)
Record timeval := mk_timeval { tv_sec : Z; tv_usec : Z }.

(** The receive line of the serial port: the bytes still to be read, in
    order, each with the time (milliseconds since boot) at which it reaches
    the receive buffer. *)
Definition rxline := list (Z * ascii).

Record Board := mkBoard {
  clock : Z;                  (* milliseconds since boot *)
  rx : rxline;                (* serial input, not yet read *)
  timeout : Z;                (* Stream::_timeout, milliseconds *)
  tx : string;                (* everything written to the serial port *)
  pins : gmap Z bool;         (* level last written to each GPIO pin *)
  rtc_at_boot : Z;            (* wall clock at boot, microseconds since the epoch *)
  rtc_writes : list timeval;  (* arguments of the settimeofday calls, oldest first *)
  uninit_tm : tm              (* indeterminate contents of an uninitialised [tm] *)
}.

Definition set_clock (t : Z) (b : Board) : Board :=
  mkBoard t (rx b) (timeout b) (tx b) (pins b) (rtc_at_boot b) (rtc_writes b) (uninit_tm b).
Definition set_rx (l : rxline) (b : Board) : Board :=
  mkBoard (clock b) l (timeout b) (tx b) (pins b) (rtc_at_boot b) (rtc_writes b) (uninit_tm b).
Definition set_tx (s : string) (b : Board) : Board :=
  mkBoard (clock b) (rx b) (timeout b) s (pins b) (rtc_at_boot b) (rtc_writes b) (uninit_tm b).
Definition set_pins (p : gmap Z bool) (b : Board) : Board :=
  mkBoard (clock b) (rx b) (timeout b) (tx b) p (rtc_at_boot b) (rtc_writes b) (uninit_tm b).

(** [millis()]: an [unsigned long] that wraps after 2^32 ms. *)
Definition millis (b : Board) : Z := wrap_u32 (clock b).

(** [delay(ms)] *)
Definition delay (ms : Z) (b : Board) : Board := set_clock (clock b + ms) b.

(** [Serial.getTimeout()] and [Serial.setTimeout(ms)]; the argument is an
    [unsigned long]. *)
Definition Serial_getTimeout (b : Board) : Z := timeout b.
Definition Serial_setTimeout (ms : Z) (b : Board) : Board :=
  mkBoard (clock b) (rx b) (wrap_u32 ms) (tx b) (pins b) (rtc_at_boot b) (rtc_writes b) (uninit_tm b).

(** [Serial.print(s)] and [Serial.println(s)] *)
Definition Serial_print (s : string) (b : Board) : Board := set_tx (tx b ++ s)%string b.
Definition Serial_println (s : string) (b : Board) : Board :=
  Serial_print (s ++ CR ++ LF)%string b.

(** [digitalWrite(pin, level)] *)
Definition digitalWrite (pin : Z) (level : bool) (b : Board) : Board :=
  set_pins (<[pin := level]> (pins b)) b.

(** *** Reading from the serial port

    The functions of [Stream] touch the clock and the receive line only and
    read the timeout, so they are written over these three. *)

(** A byte due at time [a] is in the receive buffer at time [clk]. *)
Definition arrived (clk a : Z) : bool := a <=? clk.
Arguments arrived : simpl never.

(** [Serial.available()] as a truth value. *)
Definition available (clk : Z) (l : rxline) : bool :=
  match l with
  | [] => false
  | (a, _) :: _ => arrived clk a
  end.

(** [Serial.read()]: the next byte if one is in the buffer, else -1. *)
Definition read (clk : Z) (l : rxline) : option ascii * rxline :=
  match l with
  | [] => (None, [])
  | (a, c) :: rest => if arrived clk a then (Some c, rest) else (None, l)
  end.

(** The polling loop of [timedRead()] and [timedPeek()]:
    [start = millis(); do { c = read(); if (c >= 0) return c; }
     while (millis() - start < _timeout); return -1;].
    A byte is caught when it is already there or reaches the buffer
    while [millis() - start < _timeout] still holds; the loop gives up when
    [_timeout] ms have passed.  The result is the time at which the loop
    ends and whether a byte is there. *)
Definition wait_byte (tmo clk : Z) (l : rxline) : Z * bool :=
  match l with
  | [] => (clk + tmo, false)
  | (a, _) :: _ =>
      if arrived clk a then (clk, true)
      else if a - clk <? tmo then (a, true)
      else (clk + tmo, false)
  end.

(** [Stream::timedPeek()] *)
Definition timedPeek (tmo clk : Z) (l : rxline) : option ascii * Z :=
  match l, wait_byte tmo clk l with
  | (_, c) :: _, (clk', true) => (Some c, clk')
  | _, (clk', _) => (None, clk')
  end.

(** [Stream::timedRead()] *)
Definition timedRead (tmo clk : Z) (l : rxline) : option ascii * Z * rxline :=
  match l, wait_byte tmo clk l with
  | (_, c) :: rest, (clk', true) => (Some c, clk', rest)
  | _, (clk', _) => (None, clk', l)
  end.

(** [Stream::readString()]:
    [c = timedRead(); while (c >= 0) { ret += (char)c; c = timedRead(); }] *)
Fixpoint readString (tmo clk : Z) (l : rxline) : string * Z * rxline :=
  match l with
  | [] => (EmptyString, clk + tmo, [])
  | (a, c) :: rest =>
      match wait_byte tmo clk l with
      | (clk', true) =>
          let '(s, clk'', l') := readString tmo clk' rest in
          (String c s, clk'', l')
      | (clk', false) => (EmptyString, clk', l)
      end
  end.

(** [Stream::peekNextDigit()]: peeks with timeout; returns -1 on timeout, the
    peeked character when it is ['-'] or a digit, and otherwise discards the
    character and goes on.  Returns the character, the time and the line
    with the character still at its head. *)
Fixpoint peekNextDigit (tmo clk : Z) (l : rxline) : option ascii * Z * rxline :=
  match l with
  | [] => (None, clk + tmo, [])
  | (a, c) :: rest =>
      match wait_byte tmo clk l with
      | (clk', true) =>
          if is_minus c || is_digit c then (Some c, clk', l)
          else peekNextDigit tmo clk' rest
      | (clk', false) => (None, clk', l)
      end
  end.

(** One pass of the body of the [do ... while] loop of [Stream::parseInt()]
    on the peeked character [c]:
    [if (c == skipChar) ; else if (c == '-') isNegative = true;
     else if (c >= '0' && c <= '9') value = value * 10 + c - '0';].
    [value] is a [long]. *)
Definition parseInt_step (c : ascii) (acc : bool * Z) : bool * Z :=
  let (isNegative, value) := acc in
  if is_skip c then acc
  else if is_minus c then (true, value)
  else if is_digit c then (isNegative, wrap_i32 (value * 10 + code c - 48))
  else acc.

(** The loop of [Stream::parseInt()],
    [do { ...; read(); c = timedPeek(); }
     while ((c >= '0' && c <= '9') || c == skipChar);],
    entered with [c] peeked at the head of the line and [rest] behind it. *)
Fixpoint parseInt_loop (tmo : Z) (c : ascii) (clk : Z) (rest : rxline)
    (acc : bool * Z) : (bool * Z) * Z * rxline :=
  let acc' := parseInt_step c acc in
  match rest with
  | [] => (acc', clk + tmo, [])
  | (_, c') :: rest' =>
      match wait_byte tmo clk rest with
      | (clk', true) =>
          if is_digit c' || is_skip c' then parseInt_loop tmo c' clk' rest' acc'
          else (acc', clk', rest)
      | (clk', false) => (acc', clk', rest)
      end
  end.

(** [Stream::parseInt()]: zero on timeout before any ['-'] or digit; else
    the digits up to the first character that is none, negated when a
    ['-'] came first. *)
Definition parseInt (tmo clk : Z) (l : rxline) : Z * Z * rxline :=
  match peekNextDigit tmo clk l with
  | (Some c, clk', _ :: rest) =>
      let '((isNegative, value), clk'', l') := parseInt_loop tmo c clk' rest (false, 0) in
      (if isNegative then wrap_i32 (- value) else value, clk'', l')
  | (_, clk', l') => (0, clk', l')
  end.

(** *** Floating point: [float] is IEEE binary32, [double] binary64 *)

Definition float_mul : spec_float -> spec_float -> spec_float := SFmul 24 128.
Definition double_mul : spec_float -> spec_float -> spec_float := SFmul 53 1024.

(** Conversions; widening is exact, narrowing rounds to nearest even. *)
Definition convert (prec emax : Z) (x : spec_float) : spec_float :=
  match x with
  | S754_finite s m e => binary_normalize prec emax (cond_Zopp s (Zpos m)) e s
  | _ => x
  end.
Definition double_of_float : spec_float -> spec_float := convert 53 1024.
Definition float_of_double : spec_float -> spec_float := convert 24 128.

(** [(float) v] for a [long] [v]. *)
Definition float_of_long (v : Z) : spec_float := binary_normalize 24 128 v 0 false.

(** The constants [1.0] (a [float]) and [0.1] (a [double], the one nearest
    to one tenth). *)
Definition float_1 : spec_float := SFone 24 128.
Definition double_0_1 : spec_float :=
  SFdiv 53 1024 (binary_normalize 53 1024 1 0 false) (binary_normalize 53 1024 10 0 false).

(** The local variables of [Stream::parseFloat()]. *)
Record pf_vars := mk_pf {
  pf_isNegative : bool; pf_isFraction : bool; pf_value : Z; pf_fraction : spec_float
}.

(** One pass of the body of the loop of [Stream::parseFloat()]:
    [if (c == skipChar) ; else if (c == '-') isNegative = true;
     else if (c == '.') isFraction = true;
     else if (c >= '0' && c <= '9') { value = value * 10 + c - '0';
                                      if (isFraction) fraction *= 0.1; }] *)
Definition parseFloat_step (c : ascii) (v : pf_vars) : pf_vars :=
  if is_skip c then v
  else if is_minus c then mk_pf true (pf_isFraction v) (pf_value v) (pf_fraction v)
  else if is_dot c then mk_pf (pf_isNegative v) true (pf_value v) (pf_fraction v)
  else if is_digit c then
    mk_pf (pf_isNegative v) (pf_isFraction v)
      (wrap_i32 (pf_value v * 10 + code c - 48))
      (if pf_isFraction v
       then float_of_double (double_mul (double_of_float (pf_fraction v)) double_0_1)
       else pf_fraction v)
  else v.

(** The loop of [Stream::parseFloat()], which goes on
    [while ((c >= '0' && c <= '9') || c == '.' || c == skipChar)]. *)
Fixpoint parseFloat_loop (tmo : Z) (c : ascii) (clk : Z) (rest : rxline)
    (v : pf_vars) : pf_vars * Z * rxline :=
  let v' := parseFloat_step c v in
  match rest with
  | [] => (v', clk + tmo, [])
  | (_, c') :: rest' =>
      match wait_byte tmo clk rest with
      | (clk', true) =>
          if is_digit c' || is_dot c' || is_skip c' then parseFloat_loop tmo c' clk' rest' v'
          else (v', clk', rest)
      | (clk', false) => (v', clk', rest)
      end
  end.

(** [Stream::parseFloat()], a [float]:
    [if (isNegative) value = -value;
     if (isFraction) return value * fraction; else return value;] *)
Definition parseFloat (tmo clk : Z) (l : rxline) : spec_float * Z * rxline :=
  match peekNextDigit tmo clk l with
  | (Some c, clk', _ :: rest) =>
      let '(v, clk'', l') := parseFloat_loop tmo c clk' rest (mk_pf false false 0 float_1) in
      let value := if pf_isNegative v then wrap_i32 (- pf_value v) else pf_value v in
      (if pf_isFraction v then float_mul (float_of_long value) (pf_fraction v)
       else float_of_long value, clk'', l')
  | (_, clk', l') => (float_of_long 0, clk', l')
  end.

(** The input typed in one go: every byte of [s] due at time [t]. *)
Definition typed (t : Z) (s : string) : rxline :=
  map (fun c => (t, c)) (list_ascii_of_string s).


(** ** The C library *)

(** *** [sscanf] *)

(** The conversions the sketch uses: [%<width>d] and [%*c]. *)
Inductive directive : Type :=
  | Conv_d (width : nat)
  | Conv_skip_c.

Fixpoint skip_space (s : list ascii) : list ascii :=
  match s with
  | c :: s' => if isspace c then skip_space s' else s
  | [] => []
  end.

(** Up to [width] decimal digits: the number so far, how many were read
    and what is left. *)
Fixpoint scan_digits (width : nat) (s : list ascii) (acc : Z) (n : nat)
    : Z * nat * list ascii :=
  match width, s with
  | S w, c :: s' => if is_digit c then scan_digits w s' (acc * 10 + (code c - 48)) (S n)
                    else (acc, n, s)
  | _, _ => (acc, n, s)
  end.

(** [%<width>d]: white space is skipped, then an optional sign and decimal
    digits are taken, [width] characters at most; with no digit the
    conversion fails. *)
Definition scan_d (width : nat) (s : list ascii) : option (Z * list ascii) :=
  let s := skip_space s in
  let '(neg, width, s) :=
    match width, s with
    | S w, c :: s' =>
        if Ascii.eqb c "-" then (true, w, s')
        else if Ascii.eqb c "+" then (false, w, s')
        else (false, width, s)
    | _, _ => (false, width, s)
    end in
  let '(v, n, s') := scan_digits width s 0 0 in
  match n with
  | O => None
  | _ => Some (if neg then - v else v, s')
  end.

(** [sscanf(s, fmt, ...)] for a format of such conversions: the values
    converted, in order, up to the first conversion that fails or finds
    the input at its end. *)
Fixpoint sscanf (fmt : list directive) (s : list ascii) : list Z :=
  match fmt with
  | [] => []
  | Conv_d w :: fmt' =>
      match scan_d w s with
      | Some (v, s') => v :: sscanf fmt' s'
      | None => []
      end
  | Conv_skip_c :: fmt' =>
      match s with
      | _ :: s' => sscanf fmt' s'
      | [] => []
      end
  end.

(** The stores through the pointer arguments: a converted value is stored,
    a variable whose conversion was not reached keeps what it held. *)
Definition stored (vals : list Z) (i : nat) (old : Z) : Z := nth i vals old.

(** [str.c_str()] as the C library reads it: a [String] keeps every byte
    it was given, and the C string in its buffer ends at the first NUL
    among them. *)
Fixpoint c_str (str : string) : list ascii :=
  match str with
  | EmptyString => []
  | String c str' => if Ascii.eqb c "000" then [] else c :: c_str str'
  end.

(** *** Calendar time, in the time zone UTC of a board whose [TZ] is unset *)

Definition is_leap (y : Z) : bool :=
  (y mod 4 =? 0) && (negb (y mod 100 =? 0) || (y mod 400 =? 0)).

(** Days from 1 January 1970 to 1 January of year [y]. *)
Definition days_to_year (y : Z) : Z :=
  let leaps y := y / 4 - y / 100 + y / 400 in
  365 * (y - 1970) + (leaps (y - 1) - leaps 1969).

Definition month_lengths (y : Z) : list Z :=
  [31; if is_leap y then 29 else 28; 31; 30; 31; 30; 31; 31; 30; 31; 30; 31].

(** Days from 1 January to the first of month [m] (0 = January) of [y]. *)
Definition days_to_month (y m : Z) : Z :=
  fold_right Z.add 0 (firstn (Z.to_nat m) (month_lengths y)).

(** The seconds from the epoch to the broken-down time [t], whose members
    need not be in their ranges.  [tm_wday], [tm_yday] are not read and
    there is no daylight saving in UTC. *)
Definition calendar_seconds (t : tm) : Z :=
  let y := tm_year t + 1900 + tm_mon t / 12 in
  let m := tm_mon t mod 12 in
  let days := days_to_year y + days_to_month y m + (tm_mday t - 1) in
  ((days * 24 + tm_hour t) * 60 + tm_min t) * 60 + tm_sec t.

(** [time_t] is the [long] of the ESP32 toolchain, 32 bits wide (up to
    ESP-IDF 4; later toolchains have 64 bits and agree on the times that 32
    bits hold): the times from 13 December 1901 to 19 January 2038. *)
Definition fits_time_t (z : Z) : bool := (- 2 ^ 31 <=? z) && (z <? 2 ^ 31).

(** [mktime]: the calendar time of [t] as a [time_t], and [(time_t)-1]
    when [time_t] cannot hold it. *)
Definition mktime (t : tm) : Z :=
  let secs := calendar_seconds t in
  if fits_time_t secs then secs else -1.

(** The year of day [d] (days since the epoch) and the day within it,
    searched from [y] on for at most [fuel] years. *)
Fixpoint year_of_day (fuel : nat) (y d : Z) : Z * Z :=
  match fuel with
  | O => (y, d)
  | S f =>
      let len := if is_leap y then 366 else 365 in
      if d <? len then (y, d) else year_of_day f (y + 1) (d - len)
  end.

(** The month of day [d] of a year with the months [lens], from month [m]. *)
Fixpoint month_of_day (lens : list Z) (m d : Z) : Z * Z :=
  match lens with
  | [] => (m, d)
  | len :: lens' => if d <? len then (m, d) else month_of_day lens' (m + 1) (d - len)
  end.

(** [localtime_r]: seconds since the epoch as a broken-down time. *)
Definition localtime (t : Z) : tm :=
  let days := t / 86400 in
  let secs := t mod 86400 in
  let y400 := 1970 + 400 * (days / 146097) in
  let '(y, yday) := year_of_day 400 y400 (days mod 146097) in
  let '(m, md) := month_of_day (month_lengths y) 0 yday in
  mk_tm (secs mod 60) (secs / 60 mod 60) (secs / 3600) (md + 1) m (y - 1900)
        ((days + 4) mod 7) yday 0.

(** *** Formatted output *)

(** [%d] / [%ld] *)
Definition fmt_d (z : Z) : string := NilZero.string_of_int (Z.to_int z).

(** [%02d] for the members of a broken-down time. *)
Definition fmt_02d (z : Z) : string :=
  if (0 <=? z) && (z <? 10) then ("0" ++ fmt_d z)%string else fmt_d z.

(** [%*c] with the width [width]: the character, right-justified with
    blanks. *)
Definition fmt_star_c (width : nat) (c : ascii) : string :=
  (string_of_list_ascii (repeat " "%char (width - 1)) ++ String c EmptyString)%string.

(** The value of [m * 2^e * 10^6], rounded to the nearest integer, ties to
    even. *)
Definition micro_units (m e : Z) : Z :=
  if 0 <=? e then m * 2 ^ e * 10 ^ 6
  else
    let den := 2 ^ (- e) in
    let q := m * 10 ^ 6 / den in
    let r := m * 10 ^ 6 mod den in
    if 2 * r <? den then q
    else if den <? 2 * r then q + 1
    else if Z.even q then q else q + 1.

(** [%f] of a [double]: six digits after the point. *)
Definition fmt_f (x : spec_float) : string :=
  let sign (s : bool) : string := if s then "-"%string else EmptyString in
  match x with
  | S754_zero s => (sign s ++ "0.000000")%string
  | S754_infinity s => (sign s ++ "inf")%string
  | S754_nan => "nan"%string
  | S754_finite s m e =>
      let n := micro_units (Zpos m) e in
      (sign s ++ fmt_d (n / 10 ^ 6) ++ "."
         ++ substring 1 6 (fmt_d (10 ^ 6 + n mod 10 ^ 6)))%string
  end.

(** [snprintf(buf, size, ...)] keeps [size - 1] characters of the text. *)
Definition snprintf (size : nat) (text : string) : string := substring 0 (size - 1) text.

Definition month_names : list string :=
  ["January"; "February"; "March"; "April"; "May"; "June"; "July"; "August";
   "September"; "October"; "November"; "December"]%string.
Definition weekday_names : list string :=
  ["Sunday"; "Monday"; "Tuesday"; "Wednesday"; "Thursday"; "Friday"; "Saturday"]%string.

(** [strftime(buf, size, "%B %d %Y %T (%A)", &t)] *)
Definition strftime_B_d_Y_T_A (t : tm) : string :=
  (nth (Z.to_nat (tm_mon t)) month_names "?" ++ " " ++ fmt_02d (tm_mday t) ++ " "
   ++ fmt_d (tm_year t + 1900) ++ " "
   ++ fmt_02d (tm_hour t) ++ ":" ++ fmt_02d (tm_min t) ++ ":" ++ fmt_02d (tm_sec t)
   ++ " (" ++ nth (Z.to_nat (tm_wday t)) weekday_names "?" ++ ")")%string.

(** *** The real-time clock *)

(** [time(&now)]: the wall clock in seconds since the epoch. *)
Definition time (b : Board) : Z := (rtc_at_boot b + clock b * 1000) / 1000000.

(** [settimeofday(&tv, NULL)] *)
Definition settimeofday (tv : timeval) (b : Board) : Board :=
  mkBoard (clock b) (rx b) (timeout b) (tx b) (pins b)
    (tv_sec tv * 1000000 + tv_usec tv - clock b * 1000)
    (rtc_writes b ++ [tv]) (uninit_tm b).

(** The loop of the ESP32 core's [getLocalTime(info, ms)], at most [n] passes:
    [while ((millis() - start) <= ms) { time(&now); localtime_r(&now, info);
       if (info->tm_year > (2016 - 1900)) return true; delay(10); }
     return false;] *)
Fixpoint getLocalTime_loop (n : nat) (start ms : Z) (info : tm) (b : Board)
    : bool * tm * Board :=
  match n with
  | O => (false, info, b)
  | S n' =>
      if wrap_u32 (millis b - start) <=? ms then
        let info' := localtime (time b) in
        if 2016 - 1900 <? tm_year info' then (true, info', b)
        else getLocalTime_loop n' start ms info' (delay 10 b)
      else (false, info, b)
  end.

(** [getLocalTime(&info)], with its default of 5000 ms; the loop is left
    after 502 passes at the latest. *)
Definition getLocalTime (info : tm) (b : Board) : bool * tm * Board :=
  getLocalTime_loop 502 (millis b) 5000 info b.

(** ** The sketches *)

(** *** What the two files share *)

(** [#define CLEAR_LINE Serial.printf("\r%*c\r", 80, ' ')] of main.cpp *)
Definition CLEAR_LINE (b : Board) : Board :=
  Serial_print (CR ++ fmt_star_c 80 " " ++ CR)%string b.

(** [#define CLR_LINE "\r<80 blanks>\r"] of cliMenu.cpp *)
Definition CLR_LINE : string :=
  (CR ++ "                                                                                " ++ CR)%string.

(** [LED_BUILTIN], from the board's pin definitions: GPIO 2 on the ESP32
    development boards. *)
Definition LED_BUILTIN : Z := 2.

(** The loop [while (Serial.available()) { v = parse(); }] with at most
    [fuel] passes; [None] when they do not suffice. *)
Fixpoint drain {A : Type} (parse : Z -> Z -> rxline -> A * Z * rxline)
    (fuel : nat) (tmo : Z) (v : A) (clk : Z) (l : rxline) : option (A * Z * rxline) :=
  if available clk l then
    match fuel with
    | O => None
    | S fuel' =>
        let '(v', clk', l') := parse tmo clk l in
        drain parse fuel' tmo v' clk' l'
    end
  else Some (v, clk, l).

(** The same loop on the board; every pass takes a byte off the line, so one
    pass more than there are bytes is allowed. *)
Definition while_available {A : Type} (parse : Z -> Z -> rxline -> A * Z * rxline)
    (v : A) (b : Board) : option (A * Board) :=
  match drain parse (S (length (rx b))) (timeout b) v (clock b) (rx b) with
  | Some (v', clk, l) => Some (v', set_rx l (set_clock clk b))
  | None => None
  end.

(** [enterInteger]; main.cpp prints with [%d], cliMenu.cpp with [%ld]. *)
Definition enterInteger (b : Board) : option Board :=
  let value := 0 in
  let b := delay 2000 b in
  match while_available parseInt value b with
  | Some (value, b) =>
      let buf := snprintf 32 (fmt_d value ++ " was entered ")%string in
      Some (Serial_print buf b)
  | None => None
  end.

(** [value = Serial.parseFloat()] with [double value]: the [float] is
    widened. *)
Definition parseDouble (tmo clk : Z) (l : rxline) : spec_float * Z * rxline :=
  let '(f, clk', l') := parseFloat tmo clk l in (double_of_float f, clk', l').

(** [enterFloat] *)
Definition enterFloat (b : Board) : option Board :=
  let value := S754_zero false in
  let b := delay 2000 b in
  match while_available parseDouble value b with
  | Some (value, b) =>
      let buf := snprintf 32 (fmt_f value ++ " was entered ")%string in
      Some (Serial_print buf b)
  | None => None
  end.

(** [enterString] *)
Definition enterString (b : Board) : option Board :=
  let str := EmptyString in
  let b := delay 2000 b in
  match while_available readString str b with
  | Some (str, b) => Some (Serial_print str b)
  | None => None
  end.

(** [heartbeat(pin, period, pulseWidth)]:
    [digitalWrite(pin, millis() % period < pulseWidth ? HIGH : LOW)] *)
Definition heartbeat (pin period pulseWidth : Z) (b : Board) : Board :=
  digitalWrite pin (millis b mod period <? pulseWidth) b.

(** The state of a sketch: the board and the sketch's globals.  [calls] is
    a ghost variable: the menu items whose action [doMenu] has called. *)
Record State (Item : Type) := mkState {
  board : Board;
  heartbeatEnabled : bool;
  menu : list Item;
  calls : list Item
}.
Arguments mkState {Item}.
Arguments board {Item}.
Arguments heartbeatEnabled {Item}.
Arguments menu {Item}.
Arguments calls {Item}.

Section Sketch.
Context {Item : Type}.
Variable item_key : Item -> ascii.
Variable item_txt : Item -> string.
(** [menu[i].action(menu[i].arg)], resp. [menu[i].action()] *)
Variable item_call : Item -> State Item -> option (State Item).
Variable clear_line : Board -> Board.

Definition on_board (f : Board -> Board) (st : State Item) : State Item :=
  mkState (f (board st)) (heartbeatEnabled st) (menu st) (calls st).

Definition try_on_board (f : Board -> option Board) (st : State Item)
    : option (State Item) :=
  match f (board st) with
  | Some b => Some (mkState b (heartbeatEnabled st) (menu st) (calls st))
  | None => None
  end.

Definition record_call (mi : Item) (st : State Item) : State Item :=
  mkState (board st) (heartbeatEnabled st) (menu st) (calls st ++ [mi]).

(** [toggleHeartbeat] *)
Definition toggleHeartbeat (st : State Item) : State Item :=
  let st := mkState (board st) (negb (heartbeatEnabled st)) (menu st) (calls st) in
  if heartbeatEnabled st then on_board (Serial_print "Heartbeat on ") st
  else on_board (Serial_print "Heartbeat off ") st.

(** [showMenu] *)
Definition showMenu (st : State Item) : State Item :=
  let title := (LF ++ "---------------" ++ LF ++ " CLI Menu Demo " ++ LF
                   ++ "---------------" ++ LF)%string in
  let st := on_board (Serial_print title) st in
  let st := fold_left (fun st mi => on_board (Serial_println (item_txt mi)) st) (menu st) st in
  on_board (Serial_print (LF ++ "Press a key: ")%string) st.

(** The loop of [doMenu]:
    [for (i = 0; i < nbrMenuItems; i++)
       if (key == menu[i].key) { menu[i].action(...); break; }] *)
Fixpoint scan (items : list Item) (key : ascii) (st : State Item)
    : option (State Item) :=
  match items with
  | [] => Some st
  | mi :: items' =>
      if Ascii.eqb key (item_key mi) then item_call mi (record_call mi st)
      else scan items' key st
  end.

(** [doMenu] *)
Definition doMenu (st : State Item) : option (State Item) :=
  let (r, l) := read (clock (board st)) (rx (board st)) in
  let key := char_of_read r in
  let st := on_board (set_rx l) st in
  let st := on_board clear_line st in
  scan (menu st) key st.

(** [setup]: [Serial.begin(115200)] and [pinMode(LED_BUILTIN, OUTPUT)]
    configure the hardware, [showMenu] prints the menu. *)
Definition setup (st : State Item) : State Item := showMenu st.

(** [loop] *)
Definition loop (st : State Item) : option (State Item) :=
  match (if available (clock (board st)) (rx (board st)) then doMenu st else Some st) with
  | Some st =>
      Some (if heartbeatEnabled st then on_board (heartbeat LED_BUILTIN 1000 20) st else st)
  | None => None
  end.

(** The state when [setup] is entered: the globals as initialised, the
    board as it happens to be. *)
Variable table : list Item.
Definition boot (b : Board) : State Item := mkState b true table [].

(** The states the sketch goes through: [setup] once, then [loop] again
    and again, with time passing in between. *)
Inductive reachable : State Item -> Prop :=
  | reach_boot b : reachable (boot b)
  | reach_setup b : reachable (setup (boot b))
  | reach_loop st st' : reachable st -> loop st = Some st' -> reachable st'
  | reach_idle st ms : reachable st -> 0 <= ms -> reachable (on_board (delay ms) st).
End Sketch.

(** The values the successive passes of [while (Serial.available())]
    assign, in order (a ghost of [drain]). *)
Fixpoint drain_values {A : Type} (parse : Z -> Z -> rxline -> A * Z * rxline)
    (fuel : nat) (tmo : Z) (clk : Z) (l : rxline) : list A :=
  if available clk l then
    match fuel with
    | O => []
    | S fuel' =>
        let '(v, clk', l') := parse tmo clk l in
        v :: drain_values parse fuel' tmo clk' l'
    end
  else [].

(** *** src/main.cpp *)

Module Main.

(** [Action], a reference to a function from [const char*] to [void]:
    the functions a menu item can refer to. *)
Inductive Action : Type :=
  | A_enterFloat | A_enterInteger | A_enterString | A_playRadio | A_setDateTime
  | A_sayHello | A_showDateTime | A_showMenu | A_toggleHeartbeat.

Record MenuItem := mi {
  key : ascii; txt : string; arg : string; action : Action
}.

Definition menu : list MenuItem :=
  [ mi "0" "[0] Klassik Radio" "http://stream.klassikradio.de/live/mp3-128/stream.klassikradio.de" A_playRadio;
    mi "1" "[1] SRF1 AG-SO" "http://stream.srg-ssr.ch/m/regi_ag_so/mp3_128" A_playRadio;
    mi "2" "[2] SRF2" "http://stream.srg-ssr.ch/m/drs2/mp3_128" A_playRadio;
    mi "3" "[3] SRF3" "http://stream.srg-ssr.ch/m/drs3/mp3_128" A_playRadio;
    mi "h" "[h] Say Hello" "Guten Tag" A_sayHello;
    mi "d" "[d] Set date and time as: yyyy mm dd hh mm ss" EmptyString A_setDateTime;
    mi "D" "[D] Show date and time" EmptyString A_showDateTime;
    mi "i" "[i] Enter an integer" EmptyString A_enterInteger;
    mi "f" "[f] Enter a float" EmptyString A_enterFloat;
    mi "s" "[s] Enter a string" EmptyString A_enterString;
    mi "t" "[t] Toggle heartbeat" EmptyString A_toggleHeartbeat;
    mi "S" "[S] Show menu" EmptyString A_showMenu ].

Definition St : Type := State MenuItem.

(** [showDateTime] *)
Definition showDateTime (b : Board) : Board :=
  let '(_, rtcTime, b) := getLocalTime (uninit_tm b) b in
  let buf := strftime_B_d_Y_T_A rtcTime in
  Serial_print buf b.

(** The format ["%4d%*c%2d%*c%2d%*c%2d%*c%2d%*c%2d"] *)
Definition date_format : list directive :=
  [Conv_d 4; Conv_skip_c; Conv_d 2; Conv_skip_c; Conv_d 2; Conv_skip_c;
   Conv_d 2; Conv_skip_c; Conv_d 2; Conv_skip_c; Conv_d 2].

(** The first half of [setDateTime], up to and including the loop that
    reads the text: the text read and the board then. *)
Definition setDateTime_read (b : Board) : option (string * Board) :=
  let timeout := wrap_u32 (Serial_getTimeout b) in
  let b := delay 2000 b in
  let b := Serial_setTimeout (wrap_u32 (3 * timeout)) b in
  while_available readString EmptyString b.

(** The broken-down time [setDateTime] hands to [mktime] for the text
    [str]: the members [sscanf] converted from [str.c_str()], the others
    as they were. *)
Definition setDateTime_tm (time : tm) (str : string) : tm :=
  let vals := sscanf date_format (c_str str) in
  let time :=
    mk_tm (stored vals 5 (tm_sec time)) (stored vals 4 (tm_min time))
          (stored vals 3 (tm_hour time)) (stored vals 2 (tm_mday time))
          (stored vals 1 (tm_mon time)) (stored vals 0 (tm_year time))
          (tm_wday time) (tm_yday time) (tm_isdst time) in
  mk_tm (tm_sec time) (tm_min time) (tm_hour time) (tm_mday time)
        (wrap_i32 (tm_mon time - 1)) (wrap_i32 (tm_year time - 1900))
        (tm_wday time) (tm_yday time) (tm_isdst time).

(** [setDateTime] *)
Definition setDateTime (b : Board) : option Board :=
  let timeout := wrap_u32 (Serial_getTimeout b) in
  match setDateTime_read b with
  | Some (str, b) =>
      let b := Serial_setTimeout timeout b in
      let time := setDateTime_tm (uninit_tm b) str in
      let sec_musec := mk_timeval (mktime time) 0 in
      let b := settimeofday sec_musec b in
      Some (showDateTime b)
  | None => None
  end.

(** [playRadio] *)
Definition playRadio (url : string) (b : Board) : Board :=
  Serial_print ("Playing: " ++ url)%string b.

(** [sayHello] *)
Definition sayHello (txt : string) (b : Board) : Board := Serial_print txt b.

(** The call [a(arg)] through the reference [a]. *)
Definition invoke (a : Action) (arg : string) (st : St) : option St :=
  match a with
  | A_enterFloat => try_on_board enterFloat st
  | A_enterInteger => try_on_board enterInteger st
  | A_enterString => try_on_board enterString st
  | A_playRadio => Some (on_board (playRadio arg) st)
  | A_setDateTime => try_on_board setDateTime st
  | A_sayHello => Some (on_board (sayHello arg) st)
  | A_showDateTime => Some (on_board showDateTime st)
  | A_showMenu => Some (showMenu txt st)
  | A_toggleHeartbeat => Some (toggleHeartbeat st)
  end.

Definition call (m : MenuItem) : St -> option St := invoke (action m) (arg m).

Definition doMenu : St -> option St := doMenu key call CLEAR_LINE.
Definition setup : St -> St := setup txt.
Definition loop : St -> option St := loop key call CLEAR_LINE.
Definition reachable : St -> Prop := reachable key txt call CLEAR_LINE menu.

End Main.

(** *** src/cliMenu.cpp *)

Module CliMenu.

(** The functions a menu item can refer to, of type [void()]. *)
Inductive Action : Type :=
  | A_sayHello | A_enterInteger | A_enterFloat | A_enterString
  | A_toggleHeartbeat | A_showMenu.

Record MenuItem := mi { key : ascii; txt : string; action : Action }.

Definition menu : list MenuItem :=
  [ mi "h" "[h] Say Hello" A_sayHello;
    mi "i" "[i] Enter an integer" A_enterInteger;
    mi "f" "[f] Enter a float" A_enterFloat;
    mi "s" "[s] Enter a string" A_enterString;
    mi "t" "[t] Toggle heartbeat" A_toggleHeartbeat;
    mi "S" "[S] Show menu" A_showMenu ].

Definition St : Type := State MenuItem.

(** [sayHello] *)
Definition sayHello (b : Board) : Board := Serial_print "Hello World " b.

(** The call [a()] through the reference [a]. *)
Definition invoke (a : Action) (st : St) : option St :=
  match a with
  | A_sayHello => Some (on_board sayHello st)
  | A_enterInteger => try_on_board enterInteger st
  | A_enterFloat => try_on_board enterFloat st
  | A_enterString => try_on_board enterString st
  | A_toggleHeartbeat => Some (toggleHeartbeat st)
  | A_showMenu => Some (showMenu txt st)
  end.

Definition call (m : MenuItem) : St -> option St := invoke (action m).

Definition doMenu : St -> option St := doMenu key call (Serial_print CLR_LINE).
Definition setup : St -> St := setup txt.
Definition loop : St -> option St := loop key call (Serial_print CLR_LINE).
Definition reachable : St -> Prop := reachable key txt call (Serial_print CLR_LINE) menu.

End CliMenu.

(** A board for examples: booted at time 0 with [input] typed at time
    [t], the default timeout of 1000 ms, nothing written yet. *)
Definition example_board (t : Z) (input : string) : Board :=
  mkBoard 0 (typed t input) 1000 EmptyString ∅ 0 [] (mk_tm 0 0 0 0 0 0 0 0 0).


(** A parser takes its input off the front of the line, and at least one
    byte when one is in the buffer. *)
Definition consumes {A : Type} (parse : Z -> Z -> rxline -> A * Z * rxline) : Prop :=
  forall tmo clk l v clk' l',
    parse tmo clk l = (v, clk', l') ->
    l' `suffix_of` l /\ (available clk l = true -> (length l' < length l)%nat).

(** A line without a digit. *)
Definition no_digit (l : rxline) : Prop := Forall (fun p => is_digit p.2 = false) l.

(** A parser does not turn the clock back (the timeout being an unsigned
    number). *)
Definition advances {A : Type} (parse : Z -> Z -> rxline -> A * Z * rxline) : Prop :=
  forall tmo clk l v clk' l',
    0 <= tmo -> parse tmo clk l = (v, clk', l') -> clk <= clk'.

(** What can have happened to the board between two moments when no pin,
    and no real-time clock, was written: input was taken off the front of
    the line, output was appended, time has not run backwards. *)
Definition board_step (b b' : Board) : Prop :=
  pins b' = pins b /\
  rx b' `suffix_of` rx b /\
  (exists s, tx b' = (tx b ++ s)%string) /\
  (0 <= timeout b -> clock b <= clock b' /\ 0 <= timeout b').

(** The number a sequence of decimal digits denotes. *)
Definition decimal_value (ds : list ascii) : Z :=
  fold_left (fun v c => v * 10 + (code c - 48)) ds 0.

(** Typing at a pace [readString] keeps up with: every byte is in the
    buffer when the one before it has been read, or comes less than the
    timeout later. *)
Fixpoint in_time (tmo clk : Z) (l : rxline) : Prop :=
  match l with
  | [] => True
  | (a, _) :: rest => (a <= clk \/ a - clk < tmo) /\ in_time tmo (Z.max clk a) rest
  end.

(** The time at which the last byte of a line typed at such a pace is read. *)
Definition read_until (clk : Z) (l : rxline) : Z :=
  fold_left (fun t p => Z.max t p.1) l clk.

(** A parser is done one timeout after the last byte of the line has
    reached the buffer, at the latest ([read_until clk l] is the later of
    [clk] and the arrival of the last byte of [l]). *)
Definition in_due_time {A : Type} (parse : Z -> Z -> rxline -> A * Z * rxline) : Prop :=
  forall tmo clk l v clk' l',
    0 <= tmo -> parse tmo clk l = (v, clk', l') ->
    read_until clk' l' <= read_until clk l + tmo.

(** The time by which an action called on the board [b] is done with its
    reading, when it reads with [k] times the timeout: as many timeouts as
    there are bytes after the later of the end of its [delay(2000)] and
    the arrival of the last byte. *)
Definition deadline (k : Z) (b : Board) : Z :=
  read_until (clock b + 2000) (rx b) + Z.of_nat (length (rx b)) * (k * timeout b).

(** A date of the calendar: a month from 1 to 12 and a day from 1 to the
    length of the month. *)
Definition valid_date (y m d : Z) : bool :=
  (1 <=? m) && (m <=? 12) && (1 <=? d) &&
  (d <=? nth (Z.to_nat (m - 1)) (month_lengths y) 0).

(** * Properties *)

Lemma wrap_u32_idem (z : Z) : wrap_u32 (wrap_u32 z) = wrap_u32 z.
Proof. unfold wrap_u32. by rewrite Zmod_mod. Qed.

Lemma wrap_u32_small (z : Z) : 0 <= z < 2 ^ 32 -> wrap_u32 z = z.
Proof. unfold wrap_u32. apply Z.mod_small. Qed.

(** ** The serial port *)

(** [readString] and [peekNextDigit] are the loops of the Arduino core over
    [timedRead], [timedPeek] and [read]. *)
Lemma readString_loop (tmo clk : Z) (l : rxline) :
  readString tmo clk l =
  match timedRead tmo clk l with
  | (Some c, clk', l') =>
      let '(s, clk'', l'') := readString tmo clk' l' in (String c s, clk'', l'')
  | (None, clk', l') => (EmptyString, clk', l')
  end.
Proof.
  destruct l as [|[a c] rest]; [reflexivity|].
  cbn [readString timedRead].
  destruct (wait_byte tmo clk ((a, c) :: rest)) as [clk' [|]]; reflexivity.
Qed.

Lemma wait_byte_arrived (tmo clk clk' a : Z) (c : ascii) (rest : rxline) :
  wait_byte tmo clk ((a, c) :: rest) = (clk', true) -> arrived clk' a = true.
Proof.
  unfold wait_byte, arrived.
  destruct (a <=? clk) eqn:E; [intros [= <-]; exact E|].
  destruct (a - clk <? tmo); intros [= <-]. apply Z.leb_refl.
Qed.

Lemma peekNextDigit_loop (tmo clk : Z) (l : rxline) :
  peekNextDigit tmo clk l =
  match timedPeek tmo clk l with
  | (Some c, clk') =>
      if is_minus c || is_digit c then (Some c, clk', l)
      else peekNextDigit tmo clk' (snd (read clk' l))
  | (None, clk') => (None, clk', l)
  end.
Proof.
  destruct l as [|[a c] rest]; [reflexivity|].
  cbn [peekNextDigit timedPeek].
  destruct (wait_byte tmo clk ((a, c) :: rest)) as [clk' [|]] eqn:E; [|reflexivity].
  destruct (is_minus c || is_digit c); [reflexivity|].
  cbn [read]. rewrite (wait_byte_arrived _ _ _ _ _ _ E). reflexivity.
Qed.

Lemma wait_byte_available (tmo clk a : Z) (c : ascii) (rest : rxline) :
  available clk ((a, c) :: rest) = true ->
  wait_byte tmo clk ((a, c) :: rest) = (clk, true).
Proof. cbn. intros ->. reflexivity. Qed.

Lemma readString_suffix (tmo : Z) (l : rxline) :
  forall clk s clk' l', readString tmo clk l = (s, clk', l') -> l' `suffix_of` l.
Proof.
  induction l as [|[a c] rest IH]; intros clk s clk' l'.
  - intros [= _ _ <-]. done.
  - cbn [readString].
    destruct (wait_byte tmo clk ((a, c) :: rest)) as [clk1 [|]].
    + destruct (readString tmo clk1 rest) as [[s1 clk2] l1] eqn:E.
      intros [= _ _ <-]. apply suffix_cons_r. eapply IH, E.
    + intros [= _ _ <-]. done.
Qed.

Lemma readString_consumes : consumes readString.
Proof.
  intros tmo clk l s clk' l' H. split; [eapply readString_suffix, H|].
  destruct l as [|[a c] rest]; [discriminate|]. intros Hav.
  cbn [readString] in H. rewrite (wait_byte_available _ _ _ _ _ Hav) in H.
  destruct (readString tmo clk rest) as [[s1 clk2] l1] eqn:E.
  injection H as _ _ <-.
  apply readString_suffix, suffix_length in E. cbn. lia.
Qed.

Lemma peekNextDigit_suffix (tmo : Z) (l : rxline) :
  forall clk r clk' l', peekNextDigit tmo clk l = (r, clk', l') -> l' `suffix_of` l.
Proof.
  induction l as [|[a c] rest IH]; intros clk r clk' l'.
  - intros [= _ _ <-]. done.
  - cbn [peekNextDigit].
    destruct (wait_byte tmo clk ((a, c) :: rest)) as [clk1 [|]].
    + destruct (is_minus c || is_digit c).
      * intros [= _ _ <-]. done.
      * intros H. apply suffix_cons_r. eapply IH, H.
    + intros [= _ _ <-]. done.
Qed.

(** What [peekNextDigit] returns is at the head of the line it leaves. *)
Lemma peekNextDigit_Some (tmo : Z) (l : rxline) :
  forall clk c clk' l', peekNextDigit tmo clk l = (Some c, clk', l') ->
    (is_minus c || is_digit c) = true /\ exists a rest, l' = (a, c) :: rest.
Proof.
  induction l as [|[a c0] rest IH]; intros clk c clk' l'; [discriminate|].
  cbn [peekNextDigit].
  destruct (wait_byte tmo clk ((a, c0) :: rest)) as [clk1 [|]]; [|discriminate].
  destruct (is_minus c0 || is_digit c0) eqn:E.
  - intros [= <- _ <-]. eauto.
  - apply IH.
Qed.

(** On timeout with a byte in the buffer, [peekNextDigit] has discarded
    something. *)
Lemma peekNextDigit_None (tmo clk clk' : Z) (l l' : rxline) :
  peekNextDigit tmo clk l = (None, clk', l') -> available clk l = true ->
  (length l' < length l)%nat.
Proof.
  destruct l as [|[a c] rest]; [discriminate|]. intros H Hav.
  cbn [peekNextDigit] in H. rewrite (wait_byte_available _ _ _ _ _ Hav) in H.
  destruct (is_minus c || is_digit c); [discriminate|].
  apply peekNextDigit_suffix, suffix_length in H. cbn. lia.
Qed.

Lemma parseInt_loop_suffix (tmo : Z) (rest : rxline) :
  forall c clk acc acc' clk' l',
    parseInt_loop tmo c clk rest acc = (acc', clk', l') -> l' `suffix_of` rest.
Proof.
  induction rest as [|[a c1] rest IH]; intros c clk acc acc' clk' l'.
  - intros [= _ _ <-]. done.
  - cbn [parseInt_loop].
    destruct (wait_byte tmo clk ((a, c1) :: rest)) as [clk1 [|]].
    + destruct (is_digit c1 || is_skip c1).
      * intros H. apply suffix_cons_r. eapply IH, H.
      * intros [= _ _ <-]. done.
    + intros [= _ _ <-]. done.
Qed.

Lemma parseFloat_loop_suffix (tmo : Z) (rest : rxline) :
  forall c clk v v' clk' l',
    parseFloat_loop tmo c clk rest v = (v', clk', l') -> l' `suffix_of` rest.
Proof.
  induction rest as [|[a c1] rest IH]; intros c clk v v' clk' l'.
  - intros [= _ _ <-]. done.
  - cbn [parseFloat_loop].
    destruct (wait_byte tmo clk ((a, c1) :: rest)) as [clk1 [|]].
    + destruct (is_digit c1 || is_dot c1 || is_skip c1).
      * intros H. apply suffix_cons_r. eapply IH, H.
      * intros [= _ _ <-]. done.
    + intros [= _ _ <-]. done.
Qed.

Lemma parseInt_consumes : consumes parseInt.
Proof.
  intros tmo clk l v clk' l'. unfold parseInt.
  destruct (peekNextDigit tmo clk l) as [[[c|] clk1] l1] eqn:E.
  - destruct (peekNextDigit_Some _ _ _ _ _ _ E) as [_ (a & rest & ->)].
    apply peekNextDigit_suffix in E.
    destruct (parseInt_loop tmo c clk1 rest (false, 0)) as [[[neg val] clk2] l2] eqn:E2.
    intros [= _ _ <-]. apply parseInt_loop_suffix in E2.
    assert (Hs : l2 `suffix_of` (a, c) :: rest) by (by apply suffix_cons_r).
    split; [by etrans|]. intros _.
    apply suffix_length in E, E2. cbn in E. lia.
  - intros H. assert (l' = l1) as -> by (destruct l1; congruence).
    split; [eapply peekNextDigit_suffix, E|]. eapply peekNextDigit_None, E.
Qed.

Lemma parseFloat_consumes : consumes parseFloat.
Proof.
  intros tmo clk l v clk' l'. unfold parseFloat.
  destruct (peekNextDigit tmo clk l) as [[[c|] clk1] l1] eqn:E.
  - destruct (peekNextDigit_Some _ _ _ _ _ _ E) as [_ (a & rest & ->)].
    apply peekNextDigit_suffix in E.
    destruct (parseFloat_loop tmo c clk1 rest (mk_pf false false 0 float_1))
      as [[vars clk2] l2] eqn:E2.
    intros [= _ _ <-]. apply parseFloat_loop_suffix in E2.
    assert (Hs : l2 `suffix_of` (a, c) :: rest) by (by apply suffix_cons_r).
    split; [by etrans|]. intros _.
    apply suffix_length in E, E2. cbn in E. lia.
  - intros H. assert (l' = l1) as -> by (destruct l1; congruence).
    split; [eapply peekNextDigit_suffix, E|]. eapply peekNextDigit_None, E.
Qed.

(** ** The loop [while (Serial.available())] *)

Section Drain.
Context {A : Type}.
Variable parse : Z -> Z -> rxline -> A * Z * rxline.
Hypothesis parse_consumes : consumes parse.

(** With more passes allowed than there are bytes, the loop ends, and it
    ends because nothing is left in the buffer. *)
Lemma drain_total (fuel : nat) :
  forall tmo v clk l, (length l < fuel)%nat ->
    exists v' clk' l',
      drain parse fuel tmo v clk l = Some (v', clk', l') /\
      available clk' l' = false /\ l' `suffix_of` l.
Proof using parse_consumes.
  induction fuel as [|fuel IH]; intros tmo v clk l Hlen; [lia|].
  cbn [drain]. destruct (available clk l) eqn:Hav.
  - destruct (parse tmo clk l) as [[v1 clk1] l1] eqn:E.
    destruct (parse_consumes _ _ _ _ _ _ E) as [Hs Hlt].
    destruct (IH tmo v1 clk1 l1) as (v' & clk' & l' & -> & Hav' & Hs'); [specialize (Hlt Hav); lia|].
    exists v', clk', l'. split_and!; [done..|by etrans].
  - exists v, clk, l. done.
Qed.

(** The value the loop leaves is the one its last pass assigned, or the
    initial one if there was no pass. *)
Lemma drain_last (fuel : nat) :
  forall tmo v clk l r,
    drain parse fuel tmo v clk l = Some r ->
    r.1.1 = default v (last (drain_values parse fuel tmo clk l)).
Proof using Type.
  induction fuel as [|fuel IH]; intros tmo v clk l r; cbn [drain drain_values];
    destruct (available clk l); try discriminate; try (by intros [= <-]).
  destruct (parse tmo clk l) as [[v1 clk1] l1].
  intros H. rewrite (IH _ _ _ _ _ H), last_cons.
  by destruct (last (drain_values parse fuel tmo clk1 l1)).
Qed.

Lemma while_available_total (v : A) (b : Board) :
  exists v' clk' l',
    while_available parse v b = Some (v', set_rx l' (set_clock clk' b)) /\
    v' = default v (last (drain_values parse (S (length (rx b))) (timeout b) (clock b) (rx b))) /\
    available clk' l' = false /\ l' `suffix_of` rx b.
Proof using parse_consumes.
  unfold while_available.
  destruct (drain_total (S (length (rx b))) (timeout b) v (clock b) (rx b))
    as (v' & clk' & l' & E & Hav & Hs); [lia|].
  rewrite E. exists v', clk', l'. split_and!; try done.
  exact (drain_last _ _ _ _ _ _ E).
Qed.
End Drain.

Lemma parseDouble_consumes : consumes parseDouble.
Proof.
  intros tmo clk l v clk' l'. unfold parseDouble.
  destruct (parseFloat tmo clk l) as [[f clk1] l1] eqn:E.
  intros [= _ _ <-]. eapply parseFloat_consumes, E.
Qed.

(** ** The actions return *)

Lemma enterInteger_returns (b : Board) :
  exists clk l,
    enterInteger b =
    Some (Serial_print
            (snprintf 32
               (fmt_d (default 0 (last (drain_values parseInt (S (length (rx b))) (timeout b)
                                          (clock b + 2000) (rx b))))
                ++ " was entered "))
            (set_rx l (set_clock clk (delay 2000 b)))) /\
    available clk l = false /\ l `suffix_of` rx b.
Proof.
  unfold enterInteger.
  destruct (while_available_total parseInt parseInt_consumes 0 (delay 2000 b))
    as (v & clk & l & -> & -> & Hav & Hs).
  by exists clk, l.
Qed.

Lemma enterFloat_returns (b : Board) :
  exists clk l,
    enterFloat b =
    Some (Serial_print
            (snprintf 32
               (fmt_f (default (S754_zero false)
                         (last (drain_values parseDouble (S (length (rx b))) (timeout b)
                                  (clock b + 2000) (rx b))))
                ++ " was entered "))
            (set_rx l (set_clock clk (delay 2000 b)))) /\
    available clk l = false /\ l `suffix_of` rx b.
Proof.
  unfold enterFloat.
  destruct (while_available_total parseDouble parseDouble_consumes (S754_zero false) (delay 2000 b))
    as (v & clk & l & -> & -> & Hav & Hs).
  by exists clk, l.
Qed.

Lemma enterString_returns (b : Board) :
  exists clk l,
    enterString b =
    Some (Serial_print
            (default EmptyString
               (last (drain_values readString (S (length (rx b))) (timeout b)
                        (clock b + 2000) (rx b))))
            (set_rx l (set_clock clk (delay 2000 b)))) /\
    available clk l = false /\ l `suffix_of` rx b.
Proof.
  unfold enterString.
  destruct (while_available_total readString readString_consumes EmptyString (delay 2000 b))
    as (v & clk & l & -> & -> & Hav & Hs).
  by exists clk, l.
Qed.

(** ** The dispatcher *)

Section Dispatch.
Context {Item : Type}.
Variable item_key : Item -> ascii.
Variable item_call : Item -> State Item -> option (State Item).

(** The scan calls the first item whose key matches and goes no further. *)
Lemma scan_first_match (pre post : list Item) (m : Item) (k : ascii) (st : State Item) :
  Forall (fun x => item_key x <> k) pre -> item_key m = k ->
  scan item_key item_call (pre ++ m :: post) k st = item_call m (record_call m st).
Proof using Type.
  intros Hpre <-. induction Hpre as [|x pre Hx _ IH]; cbn [scan app].
  - by rewrite Ascii.eqb_refl.
  - destruct (Ascii.eqb_spec (item_key m) (item_key x)) as [E|_]; [by rewrite E in Hx|done].
Qed.

(** With no matching key the scan runs off the end and calls nothing. *)
Lemma scan_no_match (items : list Item) (k : ascii) (st : State Item) :
  Forall (fun x => item_key x <> k) items ->
  scan item_key item_call items k st = Some st.
Proof using Type.
  induction 1 as [|x items Hx _ IH]; cbn [scan]; [done|].
  by destruct (Ascii.eqb_spec k (item_key x)) as [E|_]; [rewrite E in Hx|].
Qed.

(** When every action leaves the table alone, so does the scan. *)
Lemma scan_menu (items : list Item) (k : ascii) (st st' : State Item) :
  (forall m s s', item_call m s = Some s' -> menu s' = menu s) ->
  scan item_key item_call items k st = Some st' -> menu st' = menu st.
Proof using Type.
  intros Hcall. induction items as [|x items IH]; cbn [scan]; [by intros [= <-]|].
  destruct (Ascii.eqb k (item_key x)); [|done].
  intros H. by rewrite (Hcall _ _ _ H).
Qed.
End Dispatch.

(** A loop of writes to the board touches the board only. *)
Lemma fold_on_board {Item X : Type} (f : X -> Board -> Board) (xs : list X) (st : State Item) :
  fold_left (fun st x => on_board (f x) st) xs st =
  on_board (fun b => fold_left (fun b x => f x b) xs b) st.
Proof.
  revert st. induction xs as [|x xs IH]; intros st; cbn [fold_left]; [by destruct st|].
  by rewrite IH.
Qed.

Lemma showMenu_board {Item : Type} (item_txt : Item -> string) (st : State Item) :
  showMenu item_txt st =
  on_board (fun b =>
    Serial_print (LF ++ "Press a key: ")
      (fold_left (fun b x => Serial_println (item_txt x) b) (menu st)
         (Serial_print
            (LF ++ "---------------" ++ LF ++ " CLI Menu Demo " ++ LF ++ "---------------" ++ LF)
            b))) st.
Proof. unfold showMenu. cbn [menu on_board]. by rewrite fold_on_board. Qed.

Lemma timeout_println_lines {X : Type} (f : X -> string) (xs : list X) (b : Board) :
  timeout (fold_left (fun b x => Serial_println (f x) b) xs b) = timeout b.
Proof. revert b. induction xs as [|x xs IH]; intros b; cbn [fold_left]; [done|]. by rewrite IH. Qed.

Lemma getLocalTime_loop_timeout (n : nat) :
  forall start ms info b, timeout (getLocalTime_loop n start ms info b).2 = timeout b.
Proof.
  induction n as [|n IH]; intros start ms info b; cbn [getLocalTime_loop]; [done|].
  destruct (wrap_u32 (millis b - start) <=? ms); [|done].
  destruct (2016 - 1900 <? tm_year (localtime (time b))); [done|].
  by rewrite IH.
Qed.

Lemma showDateTime_timeout (b : Board) : timeout (Main.showDateTime b) = timeout b.
Proof.
  unfold Main.showDateTime, getLocalTime.
  pose proof (getLocalTime_loop_timeout 502 (millis b) 5000 (uninit_tm b) b) as H.
  by destruct (getLocalTime_loop 502 (millis b) 5000 (uninit_tm b) b) as [[ok info] b'].
Qed.

Lemma enterInteger_timeout (b b' : Board) : enterInteger b = Some b' -> timeout b' = timeout b.
Proof. destruct (enterInteger_returns b) as (clk & l & -> & _). by intros [= <-]. Qed.

Lemma enterFloat_timeout (b b' : Board) : enterFloat b = Some b' -> timeout b' = timeout b.
Proof. destruct (enterFloat_returns b) as (clk & l & -> & _). by intros [= <-]. Qed.

Lemma enterString_timeout (b b' : Board) : enterString b = Some b' -> timeout b' = timeout b.
Proof. destruct (enterString_returns b) as (clk & l & -> & _). by intros [= <-]. Qed.

(** [setDateTime] returns, and its parts are as follows. *)
Lemma setDateTime_returns (b : Board) :
  exists str clk l,
    let b_read := set_rx l (set_clock clk
                    (Serial_setTimeout (wrap_u32 (3 * wrap_u32 (timeout b))) (delay 2000 b))) in
    Main.setDateTime_read b = Some (str, b_read) /\
    Main.setDateTime b =
      Some (Main.showDateTime
              (settimeofday (mk_timeval (mktime (Main.setDateTime_tm (uninit_tm b) str)) 0)
                 (Serial_setTimeout (wrap_u32 (timeout b)) b_read))) /\
    str = default EmptyString
            (last (drain_values readString (S (length (rx b)))
                     (wrap_u32 (3 * wrap_u32 (timeout b))) (clock b + 2000) (rx b))) /\
    available clk l = false /\ l `suffix_of` rx b.
Proof.
  unfold Main.setDateTime, Main.setDateTime_read, Serial_getTimeout.
  destruct (while_available_total readString readString_consumes EmptyString
              (Serial_setTimeout (wrap_u32 (3 * wrap_u32 (timeout b))) (delay 2000 b)))
    as (v & clk & l & -> & Hv & Hav & Hs).
  exists v, clk, l. split_and!; try done.
  rewrite Hv. cbn [Serial_setTimeout delay set_clock rx timeout clock].
  by rewrite wrap_u32_idem.
Qed.

(** ** Frames of the actions *)

Lemma try_on_board_Some {Item : Type} (f : Board -> option Board) (st st' : State Item) :
  try_on_board f st = Some st' ->
  exists b', f (board st) = Some b' /\
             st' = mkState b' (heartbeatEnabled st) (menu st) (calls st).
Proof. unfold try_on_board. destruct (f (board st)) as [b'|]; [|done]. intros [= <-]. eauto. Qed.

Lemma Main_invoke_returns (a : Main.Action) (arg : string) (st : Main.St) :
  is_Some (Main.invoke a arg st).
Proof.
  destruct a; cbn [Main.invoke]; unfold try_on_board; try done.
  - by destruct (enterFloat_returns (board st)) as (? & ? & -> & _).
  - by destruct (enterInteger_returns (board st)) as (? & ? & -> & _).
  - by destruct (enterString_returns (board st)) as (? & ? & -> & _).
  - by destruct (setDateTime_returns (board st)) as (? & ? & ? & _ & -> & _).
Qed.

Lemma CliMenu_invoke_returns (a : CliMenu.Action) (st : CliMenu.St) :
  is_Some (CliMenu.invoke a st).
Proof.
  destruct a; cbn [CliMenu.invoke]; unfold try_on_board; try done.
  - by destruct (enterInteger_returns (board st)) as (? & ? & -> & _).
  - by destruct (enterFloat_returns (board st)) as (? & ? & -> & _).
  - by destruct (enterString_returns (board st)) as (? & ? & -> & _).
Qed.

(** No action touches the table or the record of calls, and only
    [toggleHeartbeat] touches the flag. *)
Lemma Main_invoke_frame (a : Main.Action) (arg : string) (st st' : Main.St) :
  Main.invoke a arg st = Some st' ->
  menu st' = menu st /\ calls st' = calls st /\
  (a <> Main.A_toggleHeartbeat -> heartbeatEnabled st' = heartbeatEnabled st).
Proof.
  destruct a; cbn [Main.invoke]; intros H;
    try (apply try_on_board_Some in H as (b' & _ & ->); done);
    try (injection H as <-; rewrite ?showMenu_board; done).
  injection H as <-. unfold toggleHeartbeat. cbn.
  by destruct (negb (heartbeatEnabled st)).
Qed.

Lemma CliMenu_invoke_frame (a : CliMenu.Action) (st st' : CliMenu.St) :
  CliMenu.invoke a st = Some st' ->
  menu st' = menu st /\ calls st' = calls st /\
  (a <> CliMenu.A_toggleHeartbeat -> heartbeatEnabled st' = heartbeatEnabled st).
Proof.
  destruct a; cbn [CliMenu.invoke]; intros H;
    try (apply try_on_board_Some in H as (b' & _ & ->); done);
    try (injection H as <-; rewrite ?showMenu_board; done).
  injection H as <-. unfold toggleHeartbeat. cbn.
  by destruct (negb (heartbeatEnabled st)).
Qed.

(** In a table with pairwise distinct keys, the first item with the key of
    [m] is [m]. *)
Lemma first_with_key {Item : Type} (item_key : Item -> ascii) (items : list Item) (m : Item) :
  NoDup (map item_key items) -> In m items ->
  exists pre post, items = pre ++ m :: post /\ Forall (fun x => item_key x <> item_key m) pre.
Proof.
  induction items as [|x items IH]; cbn [map]; [done|].
  intros [Hx Hnd]%NoDup_cons [->|Hin].
  - by exists [], items.
  - destruct (IH Hnd Hin) as (pre & post & -> & Hpre).
    exists (x :: pre), post. split; [done|]. constructor; [|done].
    intros E. apply Hx. rewrite E. apply list_elem_of_In, in_map, Hin.
Qed.

Lemma Main_menu_keys : NoDup (map Main.key Main.menu).
Proof.
  cbn. repeat (apply NoDup_cons_2; [rewrite ?elem_of_cons, elem_of_nil; intros Hk;
    repeat (destruct Hk as [Hk|Hk]; [discriminate Hk|]); exact Hk|]).
  apply NoDup_nil_2.
Qed.

Lemma CliMenu_menu_keys : NoDup (map CliMenu.key CliMenu.menu).
Proof.
  cbn. repeat (apply NoDup_cons_2; [rewrite ?elem_of_cons, elem_of_nil; intros Hk;
    repeat (destruct Hk as [Hk|Hk]; [discriminate Hk|]); exact Hk|]).
  apply NoDup_nil_2.
Qed.

(** C1.  When the key read is the key of an item of the table, one call of
    [doMenu] calls exactly one action: that of the first item, in the order
    of the table, whose key matches, with the argument of that item; the
    call returns, and the state [doMenu] leaves is the one that action
    leaves.  This holds for whatever the table holds (first and third
    part: main.cpp and cliMenu.cpp); for the tables as declared, every item
    is the first one with its key (second and fourth part). *)
Theorem doMenu_calls_first_match :
  (forall (st : Main.St) (pre post : list Main.MenuItem) (m : Main.MenuItem) (l : rxline),
     menu st = pre ++ m :: post ->
     Forall (fun x => Main.key x <> Main.key m) pre ->
     read (clock (board st)) (rx (board st)) = (Some (Main.key m), l) ->
     exists st',
       Main.doMenu st = Some st' /\
       Main.invoke (Main.action m) (Main.arg m)
         (record_call m (on_board CLEAR_LINE (on_board (set_rx l) st))) = Some st' /\
       calls st' = calls st ++ [m])
  /\
  (forall (st : Main.St) (m : Main.MenuItem) (l : rxline),
     menu st = Main.menu -> In m Main.menu ->
     read (clock (board st)) (rx (board st)) = (Some (Main.key m), l) ->
     exists st',
       Main.doMenu st = Some st' /\
       Main.invoke (Main.action m) (Main.arg m)
         (record_call m (on_board CLEAR_LINE (on_board (set_rx l) st))) = Some st' /\
       calls st' = calls st ++ [m])
  /\
  (forall (st : CliMenu.St) (pre post : list CliMenu.MenuItem) (m : CliMenu.MenuItem) (l : rxline),
     menu st = pre ++ m :: post ->
     Forall (fun x => CliMenu.key x <> CliMenu.key m) pre ->
     read (clock (board st)) (rx (board st)) = (Some (CliMenu.key m), l) ->
     exists st',
       CliMenu.doMenu st = Some st' /\
       CliMenu.invoke (CliMenu.action m)
         (record_call m (on_board (Serial_print CLR_LINE) (on_board (set_rx l) st))) = Some st' /\
       calls st' = calls st ++ [m])
  /\
  (forall (st : CliMenu.St) (m : CliMenu.MenuItem) (l : rxline),
     menu st = CliMenu.menu -> In m CliMenu.menu ->
     read (clock (board st)) (rx (board st)) = (Some (CliMenu.key m), l) ->
     exists st',
       CliMenu.doMenu st = Some st' /\
       CliMenu.invoke (CliMenu.action m)
         (record_call m (on_board (Serial_print CLR_LINE) (on_board (set_rx l) st))) = Some st' /\
       calls st' = calls st ++ [m]).
Proof.
  assert (HM : forall (st : Main.St) pre post m l,
     menu st = pre ++ m :: post ->
     Forall (fun x => Main.key x <> Main.key m) pre ->
     read (clock (board st)) (rx (board st)) = (Some (Main.key m), l) ->
     exists st',
       Main.doMenu st = Some st' /\
       Main.invoke (Main.action m) (Main.arg m)
         (record_call m (on_board CLEAR_LINE (on_board (set_rx l) st))) = Some st' /\
       calls st' = calls st ++ [m]).
  { intros st pre post m l Hmenu Hpre Hread.
    unfold Main.doMenu, doMenu. rewrite Hread. cbn [char_of_read on_board menu].
    rewrite Hmenu, (scan_first_match _ _ pre post m (Main.key m)) by done.
    unfold Main.call at 1.
    destruct (Main_invoke_returns (Main.action m) (Main.arg m)
                (record_call m (on_board CLEAR_LINE (on_board (set_rx l) st)))) as [st' E].
    exists st'. split_and!; try done.
    by destruct (Main_invoke_frame _ _ _ _ E) as (_ & -> & _). }
  assert (HC : forall (st : CliMenu.St) pre post m l,
     menu st = pre ++ m :: post ->
     Forall (fun x => CliMenu.key x <> CliMenu.key m) pre ->
     read (clock (board st)) (rx (board st)) = (Some (CliMenu.key m), l) ->
     exists st',
       CliMenu.doMenu st = Some st' /\
       CliMenu.invoke (CliMenu.action m)
         (record_call m (on_board (Serial_print CLR_LINE) (on_board (set_rx l) st))) = Some st' /\
       calls st' = calls st ++ [m]).
  { intros st pre post m l Hmenu Hpre Hread.
    unfold CliMenu.doMenu, doMenu. rewrite Hread. cbn [char_of_read on_board menu].
    rewrite Hmenu, (scan_first_match _ _ pre post m (CliMenu.key m)) by done.
    unfold CliMenu.call at 1.
    destruct (CliMenu_invoke_returns (CliMenu.action m)
                (record_call m (on_board (Serial_print CLR_LINE) (on_board (set_rx l) st))))
      as [st' E].
    exists st'. split_and!; try done.
    by destruct (CliMenu_invoke_frame _ _ _ E) as (_ & -> & _). }
  split_and!; [exact HM| |exact HC|].
  - intros st m l Hmenu Hin Hread.
    destruct (first_with_key Main.key Main.menu m Main_menu_keys Hin) as (pre & post & E & Hpre).
    apply (HM st pre post m l); [by rewrite Hmenu|done..].
  - intros st m l Hmenu Hin Hread.
    destruct (first_with_key CliMenu.key CliMenu.menu m CliMenu_menu_keys Hin)
      as (pre & post & E & Hpre).
    apply (HC st pre post m l); [by rewrite Hmenu|done..].
Qed.

(** An instance of C1: the key [h] on main.cpp. *)
Lemma doMenu_calls_first_match_witness :
  exists st',
    Main.doMenu (boot Main.menu (example_board 0 "h")) = Some st' /\
    calls st' = [Main.mi "h" "[h] Say Hello" "Guten Tag" Main.A_sayHello].
Proof.
  destruct doMenu_calls_first_match as (_ & H & _).
  destruct (H (boot Main.menu (example_board 0 "h"))
              (Main.mi "h" "[h] Say Hello" "Guten Tag" Main.A_sayHello) []
              eq_refl ltac:(cbn; tauto) eq_refl) as (st' & H1 & _ & H3).
  exists st'. split; [exact H1|exact H3].
Defined.

(** The two ways of clearing the line write the same: a carriage return,
    80 blanks, a carriage return. *)
Lemma CLEAR_LINE_CLR_LINE (b : Board) : CLEAR_LINE b = Serial_print CLR_LINE b.
Proof. reflexivity. Qed.

(** C2.  When the key read matches no item of the table, [doMenu] returns
    (no error), calls no action, and writes the line-clear sequence and
    nothing else; the flag, the table and the rest of the board are as
    before, the key being taken off the serial line.  That holds also when
    nothing could be read and the key is the byte 0xFF. *)
Theorem doMenu_unmatched_key :
  (forall (st : Main.St),
     let r := read (clock (board st)) (rx (board st)) in
     Forall (fun m => Main.key m <> char_of_read r.1) (menu st) ->
     Main.doMenu st =
       Some (mkState (set_tx (tx (board st) ++ CLR_LINE) (set_rx r.2 (board st)))
               (heartbeatEnabled st) (menu st) (calls st)))
  /\
  (forall (st : CliMenu.St),
     let r := read (clock (board st)) (rx (board st)) in
     Forall (fun m => CliMenu.key m <> char_of_read r.1) (menu st) ->
     CliMenu.doMenu st =
       Some (mkState (set_tx (tx (board st) ++ CLR_LINE) (set_rx r.2 (board st)))
               (heartbeatEnabled st) (menu st) (calls st))).
Proof.
  split; intros st r Hno; subst r.
  - unfold Main.doMenu, doMenu.
    destruct (read (clock (board st)) (rx (board st))) as [r l].
    cbn [on_board menu fst snd] in *. by rewrite scan_no_match.
  - unfold CliMenu.doMenu, doMenu.
    destruct (read (clock (board st)) (rx (board st))) as [r l].
    cbn [on_board menu fst snd] in *. by rewrite scan_no_match.
Qed.

(** An instance of C2: the key [x], which neither table has, at a state whose
    record of calls is empty and stays so. *)
Lemma doMenu_unmatched_key_witness :
  Main.doMenu (boot Main.menu (example_board 0 "x")) =
    Some (boot Main.menu
            (mkBoard 0 [] 1000 CLR_LINE ∅ 0 [] (mk_tm 0 0 0 0 0 0 0 0 0))) /\
  CliMenu.doMenu (boot CliMenu.menu (example_board 0 "x")) =
    Some (boot CliMenu.menu
            (mkBoard 0 [] 1000 CLR_LINE ∅ 0 [] (mk_tm 0 0 0 0 0 0 0 0 0))).
Proof.
  destruct doMenu_unmatched_key as [HM HC]. split.
  - apply (HM (boot Main.menu (example_board 0 "x"))).
    cbn. repeat (constructor; [discriminate|]). constructor.
  - apply (HC (boot CliMenu.menu (example_board 0 "x"))).
    cbn. repeat (constructor; [discriminate|]). constructor.
Defined.

(** C8.  [toggleHeartbeat] negates the flag, and twice in a row leaves the
    flag as it was.  Of the rest of the state it touches the serial output
    only, to which it appends its message; the table, the record of calls
    and everything else on the board are as before. *)
Theorem toggleHeartbeat_flag :
  forall (Item : Type) (st : State Item),
    heartbeatEnabled (toggleHeartbeat st) = negb (heartbeatEnabled st) /\
    heartbeatEnabled (toggleHeartbeat (toggleHeartbeat st)) = heartbeatEnabled st /\
    menu (toggleHeartbeat st) = menu st /\
    calls (toggleHeartbeat st) = calls st /\
    board (toggleHeartbeat st) =
      set_tx (tx (board st)
              ++ (if heartbeatEnabled st then "Heartbeat off " else "Heartbeat on "))
             (board st).
Proof.
  intros Item [b [|] m c]; cbn; split_and!; reflexivity.
Qed.

(** Every step of the sketch leaves the table as it is. *)
Lemma Main_doMenu_menu (st st' : Main.St) : Main.doMenu st = Some st' -> menu st' = menu st.
Proof.
  unfold Main.doMenu, doMenu.
  destruct (read (clock (board st)) (rx (board st))) as [r l]. intros H.
  apply scan_menu in H; [done|]. intros m s s' E. by apply Main_invoke_frame in E as [? _].
Qed.

Lemma CliMenu_doMenu_menu (st st' : CliMenu.St) :
  CliMenu.doMenu st = Some st' -> menu st' = menu st.
Proof.
  unfold CliMenu.doMenu, doMenu.
  destruct (read (clock (board st)) (rx (board st))) as [r l]. intros H.
  apply scan_menu in H; [done|]. intros m s s' E. by apply CliMenu_invoke_frame in E as [? _].
Qed.

Lemma loop_menu {Item : Type} (item_key : Item -> ascii)
    (item_call : Item -> State Item -> option (State Item)) (clear_line : Board -> Board)
    (st st' : State Item) :
  (forall s s', doMenu item_key item_call clear_line s = Some s' -> menu s' = menu s) ->
  loop item_key item_call clear_line st = Some st' -> menu st' = menu st.
Proof.
  intros Hdo. unfold loop.
  destruct (available (clock (board st)) (rx (board st))).
  - destruct (doMenu item_key item_call clear_line st) as [s|] eqn:E; [|done].
    intros [= <-]. rewrite <- (Hdo _ _ E). by destruct (heartbeatEnabled s).
  - intros [= <-]. by destruct (heartbeatEnabled st).
Qed.

Lemma reachable_menu {Item : Type} (item_key : Item -> ascii) (item_txt : Item -> string)
    (item_call : Item -> State Item -> option (State Item)) (clear_line : Board -> Board)
    (table : list Item) (st : State Item) :
  (forall s s', doMenu item_key item_call clear_line s = Some s' -> menu s' = menu s) ->
  reachable item_key item_txt item_call clear_line table st -> menu st = table.
Proof.
  intros Hdo. induction 1 as [b|b|st st' _ IH Hl|st ms _ IH _]; try done.
  - unfold setup. by rewrite showMenu_board.
  - by rewrite (loop_menu _ _ _ _ _ Hdo Hl).
Qed.

(** C9.  The keys of the table of either file are pairwise distinct; the
    actions, [doMenu], [setup] and [loop] leave the table as they find it;
    so in every state the sketch reaches the table is the declared one and
    its keys are pairwise distinct. *)
Theorem menu_keys_distinct_always :
  (NoDup (map Main.key Main.menu) /\
   (forall a arg st st', Main.invoke a arg st = Some st' -> menu st' = menu st) /\
   (forall st st', Main.doMenu st = Some st' -> menu st' = menu st) /\
   (forall st, menu (Main.setup st) = menu st) /\
   (forall st st', Main.loop st = Some st' -> menu st' = menu st) /\
   (forall st, Main.reachable st ->
      menu st = Main.menu /\ NoDup (map Main.key (menu st))))
  /\
  (NoDup (map CliMenu.key CliMenu.menu) /\
   (forall a st st', CliMenu.invoke a st = Some st' -> menu st' = menu st) /\
   (forall st st', CliMenu.doMenu st = Some st' -> menu st' = menu st) /\
   (forall st, menu (CliMenu.setup st) = menu st) /\
   (forall st st', CliMenu.loop st = Some st' -> menu st' = menu st) /\
   (forall st, CliMenu.reachable st ->
      menu st = CliMenu.menu /\ NoDup (map CliMenu.key (menu st)))).
Proof.
  split; split_and!.
  - exact Main_menu_keys.
  - intros a arg st st' H. by apply Main_invoke_frame in H as [? _].
  - exact Main_doMenu_menu.
  - intros st. unfold Main.setup, setup. by rewrite showMenu_board.
  - intros st st'. apply loop_menu, Main_doMenu_menu.
  - intros st H. apply reachable_menu in H; [|exact Main_doMenu_menu].
    rewrite H. split; [done|exact Main_menu_keys].
  - exact CliMenu_menu_keys.
  - intros a st st' H. by apply CliMenu_invoke_frame in H as [? _].
  - exact CliMenu_doMenu_menu.
  - intros st. unfold CliMenu.setup, setup. by rewrite showMenu_board.
  - intros st st'. apply loop_menu, CliMenu_doMenu_menu.
  - intros st H. apply reachable_menu in H; [|exact CliMenu_doMenu_menu].
    rewrite H. split; [done|exact CliMenu_menu_keys].
Qed.

(** An instance of C9: the state of cliMenu.cpp after [setup] and one
    [loop] that serves the key [t]. *)
Lemma menu_keys_distinct_always_witness :
  exists st,
    CliMenu.loop (CliMenu.setup (boot CliMenu.menu (example_board 0 "t"))) = Some st /\
    menu st = CliMenu.menu /\ NoDup (map CliMenu.key (menu st)).
Proof.
  destruct menu_keys_distinct_always as (_ & _ & _ & _ & _ & _ & H).
  eexists. split; [vm_compute; reflexivity|].
  apply H.
  apply (reach_loop _ _ _ _ _ (CliMenu.setup (boot CliMenu.menu (example_board 0 "t")))).
  - exact (reach_setup _ _ _ _ _ (example_board 0 "t")).
  - vm_compute. reflexivity.
Defined.

(** ** The heartbeat *)

(** C3.  For a period above zero, [heartbeat pin period pulseWidth] writes
    the pin high exactly when [millis() mod period < pulseWidth] and low
    otherwise; with 1000 and 20, high exactly when [millis() mod 1000 < 20].
    It writes nothing but that pin, and the level depends on nothing but
    [millis()] and the arguments. *)
Theorem heartbeat_pin_level :
  forall (pin period pulseWidth : Z) (b : Board),
    0 < period ->
    let now := millis b in
    let b' := heartbeat pin period pulseWidth b in
    (pins b' !! pin = Some true <-> now mod period < pulseWidth) /\
    (pins b' !! pin = Some false <-> ~ now mod period < pulseWidth) /\
    (pins (heartbeat pin 1000 20 b) !! pin = Some true <-> now mod 1000 < 20) /\
    (forall q : Z, q <> pin -> pins b' !! q = pins b !! q) /\
    clock b' = clock b /\ rx b' = rx b /\ timeout b' = timeout b /\ tx b' = tx b /\
    rtc_at_boot b' = rtc_at_boot b /\ rtc_writes b' = rtc_writes b /\
    uninit_tm b' = uninit_tm b /\
    (forall b2 : Board, millis b2 = now ->
       pins (heartbeat pin period pulseWidth b2) !! pin = pins b' !! pin).
Proof.
  intros pin period pulseWidth b _ now b'. subst b'. unfold heartbeat, digitalWrite.
  cbn [pins set_pins clock rx timeout tx rtc_at_boot rtc_writes uninit_tm].
  fold now. rewrite !lookup_insert_eq.
  split_and!; try reflexivity.
  - destruct (Z.ltb_spec (now mod period) pulseWidth); split; (done || lia).
  - destruct (Z.ltb_spec (now mod period) pulseWidth); split; (done || lia).
  - destruct (Z.ltb_spec (now mod 1000) 20); split; (done || lia).
  - intros q Hq. by rewrite lookup_insert_ne.
  - intros b2 ->. by rewrite lookup_insert_eq.
Qed.

(** An instance of C3: 15 ms into the second second, the LED is on. *)
Lemma heartbeat_pin_level_witness :
  pins (heartbeat LED_BUILTIN 1000 20 (set_clock 1015 (example_board 0 EmptyString)))
    !! LED_BUILTIN = Some true.
Proof.
  pose proof (heartbeat_pin_level LED_BUILTIN 1000 20
                (set_clock 1015 (example_board 0 EmptyString)) eq_refl) as H.
  cbv zeta in H. destruct H as [H _]. apply H. reflexivity.
Defined.

(** ** Setting the date and time *)

(** When all of the line is in the buffer, [readString] takes all of it and
    then waits for the timeout. *)
Lemma readString_all_arrived (tmo clk : Z) (l : rxline) :
  Forall (fun p => p.1 <= clk) l ->
  readString tmo clk l = (string_of_list_ascii (map snd l), clk + tmo, []).
Proof.
  induction 1 as [|[a c] l Ha _ IH]; [reflexivity|].
  cbn [readString wait_byte]. cbn in Ha. unfold arrived.
  rewrite (Zle_imp_le_bool _ _ Ha), IH. reflexivity.
Qed.

(** Read right after the clock was set to [sec] seconds, the clock says
    [sec]; and [showDateTime] prints that time at once if it is past 2016. *)
Lemma time_settimeofday (sec : Z) (b : Board) :
  time (settimeofday (mk_timeval sec 0) b) = sec.
Proof.
  unfold time, settimeofday. cbn [rtc_at_boot clock tv_sec tv_usec].
  replace (sec * 1000000 + 0 - clock b * 1000 + clock b * 1000) with (sec * 1000000) by ring.
  by apply Z.div_mul.
Qed.

Lemma getLocalTime_loop_at_once (n : nat) (start ms : Z) (info : tm) (b : Board) :
  wrap_u32 (millis b - start) <= ms -> 2016 - 1900 < tm_year (localtime (time b)) ->
  getLocalTime_loop (S n) start ms info b = (true, localtime (time b), b).
Proof.
  intros Hms Hy. cbn [getLocalTime_loop].
  by rewrite (Zle_imp_le_bool _ _ Hms), (proj2 (Z.ltb_lt _ _) Hy).
Qed.

Lemma showDateTime_settimeofday (sec : Z) (b : Board) :
  2016 - 1900 < tm_year (localtime sec) ->
  Main.showDateTime (settimeofday (mk_timeval sec 0) b) =
  Serial_print (strftime_B_d_Y_T_A (localtime sec)) (settimeofday (mk_timeval sec 0) b).
Proof.
  intros Hy. unfold Main.showDateTime, getLocalTime.
  rewrite (getLocalTime_loop_at_once 501), time_settimeofday; [done| |].
  - by rewrite Z.sub_diag.
  - by rewrite time_settimeofday.
Qed.

(** C4.  With the text "2024 10 24 12 30 00" in the receive buffer when
    the reading starts, [setDateTime] converts the six numbers 2024, 10, 24,
    12, 30, 0, turns them into the time stamp 1729773000, which is
    24 October 2024, 12:30:00 (a Thursday), calls [settimeofday] with
    exactly that, after which the clock reads that time, and prints it.
    What the uninitialised [tm] held plays no part. *)
Theorem setDateTime_sets_clock :
  forall (b : Board),
    map snd (rx b) = list_ascii_of_string "2024 10 24 12 30 00" ->
    Forall (fun p => p.1 <= clock b + 2000) (rx b) ->
    sscanf Main.date_format (list_ascii_of_string "2024 10 24 12 30 00")
      = [2024; 10; 24; 12; 30; 0] /\
    Main.setDateTime_tm (uninit_tm b) "2024 10 24 12 30 00"
      = mk_tm 0 30 12 24 9 124 (tm_wday (uninit_tm b)) (tm_yday (uninit_tm b))
              (tm_isdst (uninit_tm b)) /\
    mktime (Main.setDateTime_tm (uninit_tm b) "2024 10 24 12 30 00") = 1729773000 /\
    localtime 1729773000 = mk_tm 0 30 12 24 9 124 4 297 0 /\
    exists b',
      Main.setDateTime b = Some b' /\
      rtc_writes b' = rtc_writes b ++ [mk_timeval 1729773000 0] /\
      time b' = 1729773000 /\
      tx b' = (tx b ++ "October 24 2024 12:30:00 (Thursday)")%string /\
      rx b' = [].
Proof.
  intros b Htext Harr.
  split_and!; [reflexivity..|].
  destruct (rx b) as [|[a c] l] eqn:Hrx; [discriminate|].
  unfold Main.setDateTime, Main.setDateTime_read, while_available.
  cbn [Serial_setTimeout delay set_clock rx timeout clock Serial_getTimeout].
  rewrite Hrx. cbn [drain available length].
  inversion Harr as [|? ? Ha Hl]; subst. cbn in Ha. unfold arrived at 1.
  rewrite (Zle_imp_le_bool _ _ Ha), (readString_all_arrived _ _ _ Harr), Htext.
  rewrite string_of_list_ascii_of_string. cbn [available].
  cbn [Serial_setTimeout set_rx set_clock uninit_tm rx clock timeout tx pins rtc_at_boot rtc_writes].
  change (mktime _) with 1729773000.
  rewrite showDateTime_settimeofday by (vm_compute; reflexivity).
  eexists. split; [reflexivity|].
  split_and!; try reflexivity.
  exact (time_settimeofday _ _).
Qed.

(** An instance of C4: the text typed at boot. *)
Lemma setDateTime_sets_clock_witness :
  exists b',
    Main.setDateTime (example_board 0 "2024 10 24 12 30 00") = Some b' /\
    rtc_writes b' = [mk_timeval 1729773000 0] /\
    time b' = 1729773000 /\
    tx b' = "October 24 2024 12:30:00 (Thursday)"%string.
Proof.
  destruct (setDateTime_sets_clock (example_board 0 "2024 10 24 12 30 00") eq_refl)
    as (_ & _ & _ & _ & b' & H1 & H2 & H3 & H4 & _).
  - cbn. repeat (constructor; [discriminate|]). constructor.
  - exists b'. repeat split; assumption.
Defined.

(** ** Entering numbers and text *)

Lemma arrived_true (clk a : Z) : a <= clk -> arrived clk a = true.
Proof. apply Zle_imp_le_bool. Qed.

(** A line with a given text, all of it in the buffer at time [clk]. *)
Lemma all_arrived_cons (clk a : Z) (c : ascii) (l : rxline) :
  Forall (fun p => p.1 <= clk) ((a, c) :: l) ->
  arrived clk a = true /\ Forall (fun p => p.1 <= clk) l.
Proof. intros [Ha Hl]%Forall_cons. split; [by apply arrived_true|done]. Qed.

Lemma wait_byte_hit (tmo clk a : Z) (c : ascii) (rest : rxline) :
  arrived clk a = true -> wait_byte tmo clk ((a, c) :: rest) = (clk, true).
Proof. unfold wait_byte. by intros ->. Qed.

(** The loops of the parsers, one byte at a time, on bytes in the buffer. *)
Lemma peekNextDigit_hit (tmo clk a : Z) (c : ascii) (rest : rxline) :
  arrived clk a = true -> (is_minus c || is_digit c) = true ->
  peekNextDigit tmo clk ((a, c) :: rest) = (Some c, clk, (a, c) :: rest).
Proof. intros Ha Hc. cbn [peekNextDigit]. by rewrite wait_byte_hit, Hc. Qed.

Lemma peekNextDigit_discard (tmo clk a : Z) (c : ascii) (rest : rxline) :
  arrived clk a = true -> (is_minus c || is_digit c) = false ->
  peekNextDigit tmo clk ((a, c) :: rest) = peekNextDigit tmo clk rest.
Proof. intros Ha Hc. cbn [peekNextDigit]. by rewrite wait_byte_hit, Hc. Qed.

Lemma parseInt_loop_end (tmo clk : Z) (c : ascii) (acc : bool * Z) :
  parseInt_loop tmo c clk [] acc = (parseInt_step c acc, clk + tmo, []).
Proof. reflexivity. Qed.

Lemma parseInt_loop_more (tmo clk a : Z) (c c' : ascii) (rest : rxline) (acc : bool * Z) :
  arrived clk a = true -> (is_digit c' || is_skip c') = true ->
  parseInt_loop tmo c clk ((a, c') :: rest) acc =
  parseInt_loop tmo c' clk rest (parseInt_step c acc).
Proof. intros Ha Hc. cbn [parseInt_loop]. by rewrite wait_byte_hit, Hc. Qed.

Lemma parseInt_loop_stop (tmo clk a : Z) (c c' : ascii) (rest : rxline) (acc : bool * Z) :
  arrived clk a = true -> (is_digit c' || is_skip c') = false ->
  parseInt_loop tmo c clk ((a, c') :: rest) acc =
  (parseInt_step c acc, clk, (a, c') :: rest).
Proof. intros Ha Hc. cbn [parseInt_loop]. by rewrite wait_byte_hit, Hc. Qed.

Lemma parseFloat_loop_end (tmo clk : Z) (c : ascii) (v : pf_vars) :
  parseFloat_loop tmo c clk [] v = (parseFloat_step c v, clk + tmo, []).
Proof. reflexivity. Qed.

Lemma parseFloat_loop_more (tmo clk a : Z) (c c' : ascii) (rest : rxline) (v : pf_vars) :
  arrived clk a = true -> (is_digit c' || is_dot c' || is_skip c') = true ->
  parseFloat_loop tmo c clk ((a, c') :: rest) v =
  parseFloat_loop tmo c' clk rest (parseFloat_step c v).
Proof. intros Ha Hc. cbn [parseFloat_loop]. by rewrite wait_byte_hit, Hc. Qed.

Lemma parseFloat_loop_stop (tmo clk a : Z) (c c' : ascii) (rest : rxline) (v : pf_vars) :
  arrived clk a = true -> (is_digit c' || is_dot c' || is_skip c') = false ->
  parseFloat_loop tmo c clk ((a, c') :: rest) v =
  (parseFloat_step c v, clk, (a, c') :: rest).
Proof. intros Ha Hc. cbn [parseFloat_loop]. by rewrite wait_byte_hit, Hc. Qed.

(** Runs the parsers over bytes known to be in the buffer. *)
Ltac run_port :=
  repeat first
    [ rewrite peekNextDigit_hit by first [assumption | reflexivity]
    | rewrite peekNextDigit_discard by first [assumption | reflexivity]
    | rewrite parseInt_loop_more by first [assumption | reflexivity]
    | rewrite parseInt_loop_stop by first [assumption | reflexivity]
    | rewrite parseInt_loop_end
    | rewrite parseFloat_loop_more by first [assumption | reflexivity]
    | rewrite parseFloat_loop_stop by first [assumption | reflexivity]
    | rewrite parseFloat_loop_end ].

(** Without a digit on the line, [parseInt] returns zero however the bytes
    are timed. *)
Lemma parseInt_step_no_digit (c : ascii) (neg : bool) :
  is_digit c = false -> exists neg', parseInt_step c (neg, 0) = (neg', 0).
Proof.
  intros Hc. unfold parseInt_step. rewrite Hc.
  destruct (is_skip c), (is_minus c); eauto.
Qed.

Lemma parseInt_loop_no_digit (tmo : Z) (rest : rxline) :
  forall c clk neg r,
    is_digit c = false -> no_digit rest ->
    parseInt_loop tmo c clk rest (neg, 0) = r -> r.1.1.2 = 0.
Proof.
  induction rest as [|[a c1] rest IH]; intros c clk neg r Hc Hnd;
    destruct (parseInt_step_no_digit c neg Hc) as [neg' E]; cbn [parseInt_loop]; rewrite E.
  - by intros <-.
  - apply Forall_cons in Hnd as [Hc1 Hnd]. cbn in Hc1.
    destruct (wait_byte tmo clk ((a, c1) :: rest)) as [clk1 [|]]; [|by intros <-].
    destruct (is_digit c1 || is_skip c1); [|by intros <-].
    by apply IH.
Qed.

Lemma no_digit_suffix (l l' : rxline) : no_digit l -> l' `suffix_of` l -> no_digit l'.
Proof. intros H [k ->]. by apply Forall_app in H as [_ ?]. Qed.

Lemma parseInt_no_digit (tmo clk : Z) (l : rxline) :
  no_digit l -> (parseInt tmo clk l).1.1 = 0.
Proof.
  intros Hnd. unfold parseInt.
  destruct (peekNextDigit tmo clk l) as [[[c|] clk1] l1] eqn:E; [|done].
  destruct (peekNextDigit_Some _ _ _ _ _ _ E) as [_ (a & rest & ->)].
  apply peekNextDigit_suffix in E. apply (no_digit_suffix _ _ Hnd) in E.
  apply Forall_cons in E as [Hc Hrest]. cbn in Hc.
  pose proof (parseInt_loop_no_digit tmo rest c clk1 false _ Hc Hrest eq_refl) as H.
  destruct (parseInt_loop tmo c clk1 rest (false, 0)) as [[[neg v] clk2] l2].
  cbn in H. subst v. by destruct neg.
Qed.

(** The same for [parseFloat]: it returns [+0.0]. *)
Lemma parseFloat_step_no_digit (c : ascii) (v : pf_vars) :
  is_digit c = false -> pf_value v = 0 -> pf_fraction v = float_1 ->
  pf_value (parseFloat_step c v) = 0 /\ pf_fraction (parseFloat_step c v) = float_1.
Proof.
  intros Hc Hv Hf. unfold parseFloat_step. rewrite Hc.
  by destruct (is_skip c), (is_minus c), (is_dot c).
Qed.

Lemma parseFloat_loop_no_digit (tmo : Z) (rest : rxline) :
  forall c clk v r,
    is_digit c = false -> no_digit rest ->
    pf_value v = 0 -> pf_fraction v = float_1 ->
    parseFloat_loop tmo c clk rest v = r ->
    pf_value r.1.1 = 0 /\ pf_fraction r.1.1 = float_1.
Proof.
  induction rest as [|[a c1] rest IH]; intros c clk v r Hc Hnd Hv Hf;
    destruct (parseFloat_step_no_digit c v Hc Hv Hf) as [Hv' Hf']; cbn [parseFloat_loop].
  - by intros <-.
  - apply Forall_cons in Hnd as [Hc1 Hnd]. cbn in Hc1.
    destruct (wait_byte tmo clk ((a, c1) :: rest)) as [clk1 [|]]; [|by intros <-].
    destruct (is_digit c1 || is_dot c1 || is_skip c1); [|by intros <-].
    by apply IH.
Qed.

Lemma parseFloat_no_digit (tmo clk : Z) (l : rxline) :
  no_digit l -> (parseFloat tmo clk l).1.1 = S754_zero false.
Proof.
  intros Hnd. unfold parseFloat.
  destruct (peekNextDigit tmo clk l) as [[[c|] clk1] l1] eqn:E; [|done].
  destruct (peekNextDigit_Some _ _ _ _ _ _ E) as [_ (a & rest & ->)].
  apply peekNextDigit_suffix in E. apply (no_digit_suffix _ _ Hnd) in E.
  apply Forall_cons in E as [Hc Hrest]. cbn in Hc.
  pose proof (parseFloat_loop_no_digit tmo rest c clk1 (mk_pf false false 0 float_1) _
                Hc Hrest eq_refl eq_refl eq_refl) as [Hv Hf].
  destruct (parseFloat_loop tmo c clk1 rest (mk_pf false false 0 float_1))
    as [[[neg frac v f] clk2] l2].
  cbn in Hv, Hf. subst v f. by destruct neg, frac.
Qed.

Lemma parseDouble_no_digit (tmo clk : Z) (l : rxline) :
  no_digit l -> (parseDouble tmo clk l).1.1 = S754_zero false.
Proof.
  intros Hnd. unfold parseDouble. pose proof (parseFloat_no_digit tmo clk l Hnd) as H.
  destruct (parseFloat tmo clk l) as [[f clk1] l1]. cbn in H. by subst f.
Qed.

(** What every pass of the loop assigns, when the parser gives a value in
    [Q] on every line in [P] and [P] passes on to the rest of a line. *)
Lemma drain_values_Forall {A : Type} (parse : Z -> Z -> rxline -> A * Z * rxline)
    (P : rxline -> Prop) (Q : A -> Prop) :
  consumes parse ->
  (forall l l', P l -> l' `suffix_of` l -> P l') ->
  (forall tmo clk l, P l -> Q (parse tmo clk l).1.1) ->
  forall fuel tmo clk l, P l -> Forall Q (drain_values parse fuel tmo clk l).
Proof.
  intros Hcons Hsuf HQ. induction fuel as [|fuel IH]; intros tmo clk l HP;
    cbn [drain_values]; destruct (available clk l); try by constructor.
  pose proof (HQ tmo clk l HP) as Hv.
  destruct (parse tmo clk l) as [[v clk1] l1] eqn:E.
  constructor; [done|]. apply IH. eapply Hsuf; [done|]. eapply Hcons, E.
Qed.

Lemma default_last_Forall {A : Type} (Q : A -> Prop) (d : A) (xs : list A) :
  Q d -> Forall Q xs -> Q (default d (last xs)).
Proof.
  intros Hd Hxs. destruct (last xs) as [x|] eqn:E; [|done].
  cbn. eapply Forall_forall; [done|]. by apply last_Some_elem_of.
Qed.

(** C5.  [enterInteger]: with the text "42" in the receive buffer when the
    reading starts, it reports 42; with "abc", 0; and with a line that
    holds no digit, the empty line too, it reports 0, whenever the bytes
    come. *)
Theorem enterInteger_reports :
  (forall b : Board,
     map snd (rx b) = list_ascii_of_string "42" ->
     Forall (fun p => p.1 <= clock b + 2000) (rx b) ->
     exists b', enterInteger b = Some b' /\
                tx b' = (tx b ++ "42 was entered ")%string /\ rx b' = [])
  /\
  (forall b : Board,
     map snd (rx b) = list_ascii_of_string "abc" ->
     Forall (fun p => p.1 <= clock b + 2000) (rx b) ->
     exists b', enterInteger b = Some b' /\
                tx b' = (tx b ++ "0 was entered ")%string /\ rx b' = [])
  /\
  (forall b : Board,
     no_digit (rx b) ->
     exists b', enterInteger b = Some b' /\ tx b' = (tx b ++ "0 was entered ")%string).
Proof.
  split_and!.
  - intros b Htext Harr.
    destruct (rx b) as [|[a1 c1] [|[a2 c2] [|]]] eqn:Hrx; try discriminate.
    injection Htext as -> ->.
    apply all_arrived_cons in Harr as [H1 [H2 _]%all_arrived_cons].
    assert (P : parseInt (timeout b) (clock b + 2000) [(a1, "4"%char); (a2, "2"%char)]
                = (42, clock b + 2000 + timeout b, [])).
    { unfold parseInt. run_port. reflexivity. }
    unfold enterInteger, while_available. cbn [delay set_clock rx clock timeout].
    rewrite Hrx. cbn [drain available length]. rewrite H1, P. cbn [available].
    eexists. split; [reflexivity|]. split; reflexivity.
  - intros b Htext Harr.
    destruct (rx b) as [|[a1 c1] [|[a2 c2] [|[a3 c3] [|]]]] eqn:Hrx; try discriminate.
    injection Htext as -> -> ->.
    apply all_arrived_cons in Harr as [H1 [H2 [H3 _]%all_arrived_cons]%all_arrived_cons].
    assert (P : parseInt (timeout b) (clock b + 2000)
                  [(a1, "a"%char); (a2, "b"%char); (a3, "c"%char)]
                = (0, clock b + 2000 + timeout b, [])).
    { unfold parseInt. run_port. reflexivity. }
    unfold enterInteger, while_available. cbn [delay set_clock rx clock timeout].
    rewrite Hrx. cbn [drain available length]. rewrite H1, P. cbn [available].
    eexists. split; [reflexivity|]. split; reflexivity.
  - intros b Hnd.
    destruct (enterInteger_returns b) as (clk & l & -> & _).
    eexists. split; [reflexivity|]. cbn [tx Serial_print set_tx set_rx set_clock delay].
    rewrite (default_last_Forall (fun v => v = 0) 0); [reflexivity..|].
    apply (drain_values_Forall parseInt no_digit); try done.
    + exact parseInt_consumes.
    + exact no_digit_suffix.
    + intros. by apply parseInt_no_digit.
Qed.

(** An instance of C5: "42" typed at boot, on the example board. *)
Lemma enterInteger_reports_witness :
  exists b', enterInteger (example_board 0 "42") = Some b' /\
             tx b' = "42 was entered "%string /\ rx b' = [].
Proof.
  destruct enterInteger_reports as [H _].
  apply (H (example_board 0 "42") eq_refl).
  cbn. repeat (constructor; [discriminate|]). constructor.
Defined.

(** C6.  [enterFloat]: with the text "3.14" in the receive buffer when the
    reading starts, the value reported is the [double]
    7070651114323968 * 2^-51, which is within a millionth of 3.14 and is
    printed as 3.140000; with an empty line, or one that holds no digit,
    whenever its bytes come, the value reported is 0.0. *)
Theorem enterFloat_reports :
  (forall b : Board,
     map snd (rx b) = list_ascii_of_string "3.14" ->
     Forall (fun p => p.1 <= clock b + 2000) (rx b) ->
     parseDouble (timeout b) (clock b + 2000) (rx b)
       = (S754_finite false 7070651114323968 (-51), clock b + 2000 + timeout b, []) /\
     3139999 * 2 ^ 51 < 1000000 * 7070651114323968 < 3140001 * 2 ^ 51 /\
     exists b', enterFloat b = Some b' /\
                tx b' = (tx b ++ "3.140000 was entered ")%string /\ rx b' = [])
  /\
  (forall b : Board,
     rx b = [] ->
     exists b', enterFloat b = Some b' /\ tx b' = (tx b ++ "0.000000 was entered ")%string)
  /\
  (forall b : Board,
     no_digit (rx b) ->
     default (S754_zero false)
       (last (drain_values parseDouble (S (length (rx b))) (timeout b) (clock b + 2000) (rx b)))
       = S754_zero false /\
     exists b', enterFloat b = Some b' /\ tx b' = (tx b ++ "0.000000 was entered ")%string).
Proof.
  assert (Hnd : forall b : Board,
     no_digit (rx b) ->
     default (S754_zero false)
       (last (drain_values parseDouble (S (length (rx b))) (timeout b) (clock b + 2000) (rx b)))
       = S754_zero false /\
     exists b', enterFloat b = Some b' /\ tx b' = (tx b ++ "0.000000 was entered ")%string).
  { intros b Hnd.
    assert (E : default (S754_zero false)
       (last (drain_values parseDouble (S (length (rx b))) (timeout b) (clock b + 2000) (rx b)))
       = S754_zero false).
    { apply (default_last_Forall (fun v => v = S754_zero false)); [done|].
      apply (drain_values_Forall parseDouble no_digit); try done.
      - exact parseDouble_consumes.
      - exact no_digit_suffix.
      - intros. by apply parseDouble_no_digit. }
    split; [exact E|].
    destruct (enterFloat_returns b) as (clk & l & -> & _).
    eexists. split; [reflexivity|]. cbn [tx Serial_print set_tx set_rx set_clock delay].
    by rewrite E. }
  split_and!; [|intros b Hrx; apply Hnd; rewrite Hrx; constructor|exact Hnd].
  intros b Htext Harr.
  destruct (rx b) as [|[a1 c1] [|[a2 c2] [|[a3 c3] [|[a4 c4] [|]]]]] eqn:Hrx; try discriminate.
  injection Htext as -> -> -> ->.
  apply all_arrived_cons in Harr as [H1 Harr]. apply all_arrived_cons in Harr as [H2 Harr].
  apply all_arrived_cons in Harr as [H3 Harr]. apply all_arrived_cons in Harr as [H4 _].
  assert (P : parseDouble (timeout b) (clock b + 2000)
                [(a1, "3"%char); (a2, "."%char); (a3, "1"%char); (a4, "4"%char)]
              = (S754_finite false 7070651114323968 (-51), clock b + 2000 + timeout b, [])).
  { unfold parseDouble, parseFloat. run_port. reflexivity. }
  split; [exact P|]. split; [lia|].
  unfold enterFloat, while_available. cbn [delay set_clock rx clock timeout].
  rewrite Hrx. cbn [drain available length]. rewrite H1, P. cbn [available].
  eexists. split; [reflexivity|]. split; reflexivity.
Qed.

(** An instance of C6: "3.14" typed at boot, on the example board. *)
Lemma enterFloat_reports_witness :
  exists b', enterFloat (example_board 0 "3.14") = Some b' /\
             tx b' = "3.140000 was entered "%string /\ rx b' = [].
Proof.
  destruct enterFloat_reports as [H _].
  destruct (H (example_board 0 "3.14") eq_refl) as (_ & _ & H'); [|exact H'].
  cbn. repeat (constructor; [discriminate|]). constructor.
Defined.

(** ** The timeout of the serial port *)

Lemma Main_invoke_timeout (a : Main.Action) (arg : string) (st st' : Main.St) :
  a <> Main.A_setDateTime -> Main.invoke a arg st = Some st' ->
  timeout (board st') = timeout (board st).
Proof.
  destruct a; cbn [Main.invoke]; intros Ha H; try done;
    try (apply try_on_board_Some in H as (b' & H & ->); cbn [board]).
  - by apply enterFloat_timeout.
  - by apply enterInteger_timeout.
  - by apply enterString_timeout.
  - by injection H as <-.
  - by injection H as <-.
  - injection H as <-. apply showDateTime_timeout.
  - injection H as <-. rewrite showMenu_board. cbn [on_board board Serial_print set_tx timeout].
    by rewrite timeout_println_lines.
  - injection H as <-. unfold toggleHeartbeat. cbn. by destruct (negb (heartbeatEnabled st)).
Qed.

Lemma CliMenu_invoke_timeout (a : CliMenu.Action) (st st' : CliMenu.St) :
  CliMenu.invoke a st = Some st' -> timeout (board st') = timeout (board st).
Proof.
  destruct a; cbn [CliMenu.invoke]; intros H;
    try (apply try_on_board_Some in H as (b' & H & ->); cbn [board]).
  - by injection H as <-.
  - by apply enterInteger_timeout.
  - by apply enterFloat_timeout.
  - by apply enterString_timeout.
  - injection H as <-. unfold toggleHeartbeat. cbn. by destruct (negb (heartbeatEnabled st)).
  - injection H as <-. rewrite showMenu_board. cbn [on_board board Serial_print set_tx timeout].
    by rewrite timeout_println_lines.
Qed.



(** C10.  In [enterInteger], [enterFloat] and [enterString] every pass of
    [while (Serial.available())] assigns the variable anew: when the passes
    of one cycle parse the values [vs] and then [v], only [v] is reported,
    and the values [vs] are lost.  (Last part: the loop itself, for any
    parser.) *)
Theorem drain_reports_last_parse :
  (forall (b : Board) (vs : list Z) (v : Z),
     drain_values parseInt (S (length (rx b))) (timeout b) (clock b + 2000) (rx b)
       = vs ++ [v] ->
     exists b', enterInteger b = Some b' /\
                tx b' = (tx b ++ snprintf 32 (fmt_d v ++ " was entered "))%string)
  /\
  (forall (b : Board) (vs : list spec_float) (v : spec_float),
     drain_values parseDouble (S (length (rx b))) (timeout b) (clock b + 2000) (rx b)
       = vs ++ [v] ->
     exists b', enterFloat b = Some b' /\
                tx b' = (tx b ++ snprintf 32 (fmt_f v ++ " was entered "))%string)
  /\
  (forall (b : Board) (vs : list string) (v : string),
     drain_values readString (S (length (rx b))) (timeout b) (clock b + 2000) (rx b)
       = vs ++ [v] ->
     exists b', enterString b = Some b' /\ tx b' = (tx b ++ v)%string)
  /\
  (forall (A : Type) (parse : Z -> Z -> rxline -> A * Z * rxline) (fuel : nat)
          (tmo clk : Z) (l : rxline) (v0 : A) (vs : list A) (v : A) r,
     drain_values parse fuel tmo clk l = vs ++ [v] ->
     drain parse fuel tmo v0 clk l = Some r -> r.1.1 = v).
Proof.
  split_and!.
  - intros b vs v Hvs. destruct (enterInteger_returns b) as (clk & l & -> & _).
    eexists. split; [reflexivity|]. by rewrite Hvs, last_snoc.
  - intros b vs v Hvs. destruct (enterFloat_returns b) as (clk & l & -> & _).
    eexists. split; [reflexivity|]. by rewrite Hvs, last_snoc.
  - intros b vs v Hvs. destruct (enterString_returns b) as (clk & l & -> & _).
    eexists. split; [reflexivity|]. by rewrite Hvs, last_snoc.
  - intros A parse fuel tmo clk l v0 vs v r Hvs H.
    by rewrite (drain_last parse _ _ _ _ _ _ H), Hvs, last_snoc.
Qed.

(** An instance of C10: of "12 34" only 34 is reported. *)
Lemma drain_reports_last_parse_witness :
  exists b', enterInteger (example_board 0 "12 34") = Some b' /\
             tx b' = "34 was entered "%string.
Proof.
  destruct drain_reports_last_parse as [H _].
  exact (H (example_board 0 "12 34") [12] 34 eq_refl).
Defined.

(** What C10 means at a terminal that ends the line with a line feed: the
    number is parsed, and then lost to the pass that parses the line feed. *)
Example enterInteger_trailing_newline :
  option_map tx (enterInteger (example_board 0 ("42" ++ LF))) = Some "0 was entered "%string.
Proof. reflexivity. Qed.

(** The key [d] followed by the text, through [doMenu] of main.cpp. *)
Example doMenu_sets_clock :
  option_map (fun st => (rtc_writes (board st), calls st))
    (Main.doMenu (boot Main.menu (example_board 0 "d2024 10 24 12 30 00")))
  = Some ([mk_timeval 1729773000 0],
          [Main.mi "d" "[d] Set date and time as: yyyy mm dd hh mm ss" EmptyString
             Main.A_setDateTime]).
Proof. vm_compute. reflexivity. Qed.

(** A number without a fractional part, through [enterFloat]. *)
Example enterFloat_without_fraction :
  option_map tx (enterFloat (example_board 0 "-17")) = Some "-17.000000 was entered "%string.
Proof. vm_compute. reflexivity. Qed.

(** * Further properties of the sketches *)

(** ** Strings *)

Lemma append_assoc (s1 s2 s3 : string) : ((s1 ++ s2) ++ s3 = s1 ++ (s2 ++ s3))%string.
Proof.
  induction s1 as [|c s1 IH]; [reflexivity|].
  change (String c ((s1 ++ s2) ++ s3) = String c (s1 ++ (s2 ++ s3)))%string. by f_equal.
Qed.

Lemma append_nil_r (s : string) : (s ++ EmptyString)%string = s.
Proof.
  induction s as [|c s IH]; [reflexivity|].
  change (String c (s ++ EmptyString) = String c s)%string. by f_equal.
Qed.

(** ** Time does not run backwards *)

Lemma wait_byte_le (tmo clk clk' : Z) (l : rxline) (ok : bool) :
  0 <= tmo -> wait_byte tmo clk l = (clk', ok) -> clk <= clk'.
Proof.
  intros Ht. unfold wait_byte, arrived. destruct l as [|[a c] rest]; [intros [= <- _]; lia|].
  destruct (Z.leb_spec a clk); [intros [= <- _]; lia|].
  destruct (a - clk <? tmo); intros [= <- _]; lia.
Qed.

Lemma readString_advances : advances readString.
Proof.
  intros tmo clk l. revert clk.
  induction l as [|[a c] rest IH]; intros clk s clk' l' Ht.
  - intros [= _ <- _]. lia.
  - cbn [readString].
    destruct (wait_byte tmo clk ((a, c) :: rest)) as [clk1 [|]] eqn:E;
      apply wait_byte_le in E; try done.
    + destruct (readString tmo clk1 rest) as [[s1 clk2] l1] eqn:E1.
      intros [= _ <- _]. apply IH in E1; [lia|done].
    + intros [= _ <- _]. lia.
Qed.

Lemma peekNextDigit_le (tmo : Z) (l : rxline) :
  forall clk r clk' l', 0 <= tmo -> peekNextDigit tmo clk l = (r, clk', l') -> clk <= clk'.
Proof.
  induction l as [|[a c] rest IH]; intros clk r clk' l' Ht.
  - intros [= _ <- _]. lia.
  - cbn [peekNextDigit].
    destruct (wait_byte tmo clk ((a, c) :: rest)) as [clk1 [|]] eqn:E;
      apply wait_byte_le in E; try done.
    + destruct (is_minus c || is_digit c).
      * intros [= _ <- _]. lia.
      * intros H. apply IH in H; [lia|done].
    + intros [= _ <- _]. lia.
Qed.

Lemma parseInt_loop_le (tmo : Z) (rest : rxline) :
  forall c clk acc acc' clk' l',
    0 <= tmo -> parseInt_loop tmo c clk rest acc = (acc', clk', l') -> clk <= clk'.
Proof.
  induction rest as [|[a c1] rest IH]; intros c clk acc acc' clk' l' Ht.
  - intros [= _ <- _]. lia.
  - cbn [parseInt_loop].
    destruct (wait_byte tmo clk ((a, c1) :: rest)) as [clk1 [|]] eqn:E;
      apply wait_byte_le in E; try done.
    + destruct (is_digit c1 || is_skip c1).
      * intros H. apply IH in H; [lia|done].
      * intros [= _ <- _]. lia.
    + intros [= _ <- _]. lia.
Qed.

Lemma parseFloat_loop_le (tmo : Z) (rest : rxline) :
  forall c clk v v' clk' l',
    0 <= tmo -> parseFloat_loop tmo c clk rest v = (v', clk', l') -> clk <= clk'.
Proof.
  induction rest as [|[a c1] rest IH]; intros c clk v v' clk' l' Ht.
  - intros [= _ <- _]. lia.
  - cbn [parseFloat_loop].
    destruct (wait_byte tmo clk ((a, c1) :: rest)) as [clk1 [|]] eqn:E;
      apply wait_byte_le in E; try done.
    + destruct (is_digit c1 || is_dot c1 || is_skip c1).
      * intros H. apply IH in H; [lia|done].
      * intros [= _ <- _]. lia.
    + intros [= _ <- _]. lia.
Qed.

Lemma parseInt_advances : advances parseInt.
Proof.
  intros tmo clk l v clk' l' Ht. unfold parseInt.
  destruct (peekNextDigit tmo clk l) as [[[c|] clk1] l1] eqn:E;
    apply peekNextDigit_le in E; try done.
  - destruct l1 as [|p rest]; [by intros [= _ <- _]|].
    destruct (parseInt_loop tmo c clk1 rest (false, 0)) as [[[neg val] clk2] l2] eqn:E2.
    intros [= _ <- _]. apply parseInt_loop_le in E2; [lia|done].
  - by intros [= _ <- _].
Qed.

Lemma parseDouble_advances : advances parseDouble.
Proof.
  intros tmo clk l v clk' l' Ht. unfold parseDouble, parseFloat.
  destruct (peekNextDigit tmo clk l) as [[[c|] clk1] l1] eqn:E;
    apply peekNextDigit_le in E; try done.
  - destruct l1 as [|p rest]; [by intros [= _ <- _]|].
    destruct (parseFloat_loop tmo c clk1 rest (mk_pf false false 0 float_1))
      as [[vars clk2] l2] eqn:E2.
    intros [= _ <- _]. apply parseFloat_loop_le in E2; [lia|done].
  - by intros [= _ <- _].
Qed.

Lemma drain_advances {A : Type} (parse : Z -> Z -> rxline -> A * Z * rxline) (fuel : nat) :
  advances parse ->
  forall tmo v clk l r, 0 <= tmo -> drain parse fuel tmo v clk l = Some r -> clk <= r.1.2.
Proof.
  intros Hadv. induction fuel as [|fuel IH]; intros tmo v clk l r Ht; cbn [drain];
    destruct (available clk l); try done; try (intros [= <-]; cbn; lia).
  destruct (parse tmo clk l) as [[v1 clk1] l1] eqn:E.
  intros H. apply IH in H; [|done]. apply Hadv in E; [lia|done].
Qed.

(** ** Steps of the board *)

Lemma board_step_refl (b : Board) : board_step b b.
Proof.
  split_and!; [done|done|exists EmptyString; by rewrite append_nil_r|done].
Qed.

Lemma board_step_trans (b1 b2 b3 : Board) :
  board_step b1 b2 -> board_step b2 b3 -> board_step b1 b3.
Proof.
  intros (Hp1 & Hr1 & [s1 Ht1] & Hc1) (Hp2 & Hr2 & [s2 Ht2] & Hc2). split_and!.
  - by rewrite Hp2.
  - by etrans.
  - exists (s1 ++ s2)%string. by rewrite Ht2, Ht1, append_assoc.
  - intros H0. destruct (Hc1 H0) as [? H1]. destruct (Hc2 H1). split; [lia|done].
Qed.

Lemma board_step_print (s : string) (b : Board) : board_step b (Serial_print s b).
Proof. split_and!; [done|done|by exists s|done]. Qed.

Lemma board_step_delay (ms : Z) (b : Board) : 0 <= ms -> board_step b (delay ms b).
Proof.
  intros Hms. split_and!;
    [done|done|exists EmptyString; cbn; by rewrite append_nil_r
    |intros H0; cbn; split; [lia|done]].
Qed.

Lemma board_step_setTimeout (ms : Z) (b : Board) : board_step b (Serial_setTimeout ms b).
Proof.
  split_and!;
    [done|done|exists EmptyString; cbn; by rewrite append_nil_r|].
  intros _. cbn. split; [lia|]. unfold wrap_u32. apply Z.mod_pos_bound. lia.
Qed.

Lemma board_step_settimeofday (tv : timeval) (b : Board) : board_step b (settimeofday tv b).
Proof.
  split_and!;
    [done|done|exists EmptyString; cbn; by rewrite append_nil_r
    |intros H0; cbn; split; [lia|done]].
Qed.

Lemma board_step_while_available {A : Type} (parse : Z -> Z -> rxline -> A * Z * rxline)
    (v v' : A) (b b' : Board) :
  consumes parse -> advances parse ->
  while_available parse v b = Some (v', b') -> board_step b b'.
Proof.
  intros Hcons Hadv. unfold while_available.
  destruct (drain parse (S (length (rx b))) (timeout b) v (clock b) (rx b))
    as [[[v1 clk] l]|] eqn:E; [|done].
  intros [= _ <-].
  destruct (drain_total parse Hcons (S (length (rx b))) (timeout b) v (clock b) (rx b))
    as (v2 & clk2 & l2 & E2 & _ & Hs); [lia|].
  rewrite E in E2. injection E2 as <- <- <-.
  split_and!;
    [done|done|exists EmptyString; cbn; by rewrite append_nil_r|].
  intros H0. cbn. split; [|done].
  by apply (drain_advances parse _ Hadv _ _ _ _ _ H0 E).
Qed.

Lemma board_step_getLocalTime_loop (n : nat) :
  forall start ms info b, board_step b (getLocalTime_loop n start ms info b).2.
Proof.
  induction n as [|n IH]; intros start ms info b; cbn [getLocalTime_loop];
    [apply board_step_refl|].
  destruct (wrap_u32 (millis b - start) <=? ms); [|apply board_step_refl].
  destruct (2016 - 1900 <? tm_year (localtime (time b))); [apply board_step_refl|].
  eapply board_step_trans; [|apply IH]. apply board_step_delay. lia.
Qed.

Lemma board_step_showDateTime (b : Board) : board_step b (Main.showDateTime b).
Proof.
  unfold Main.showDateTime, getLocalTime.
  pose proof (board_step_getLocalTime_loop 502 (millis b) 5000 (uninit_tm b) b) as H.
  destruct (getLocalTime_loop 502 (millis b) 5000 (uninit_tm b) b) as [[ok info] b'].
  eapply board_step_trans; [exact H|apply board_step_print].
Qed.

Lemma board_step_enterInteger (b b' : Board) : enterInteger b = Some b' -> board_step b b'.
Proof.
  unfold enterInteger.
  destruct (while_available parseInt 0 (delay 2000 b)) as [[v b1]|] eqn:E; [|done].
  intros [= <-]. apply board_step_while_available in E;
    [|exact parseInt_consumes|exact parseInt_advances].
  eapply board_step_trans; [apply (board_step_delay 2000); lia|].
  eapply board_step_trans; [exact E|apply board_step_print].
Qed.

Lemma board_step_enterFloat (b b' : Board) : enterFloat b = Some b' -> board_step b b'.
Proof.
  unfold enterFloat.
  destruct (while_available parseDouble (S754_zero false) (delay 2000 b)) as [[v b1]|] eqn:E;
    [|done].
  intros [= <-]. apply board_step_while_available in E;
    [|exact parseDouble_consumes|exact parseDouble_advances].
  eapply board_step_trans; [apply (board_step_delay 2000); lia|].
  eapply board_step_trans; [exact E|apply board_step_print].
Qed.

Lemma board_step_enterString (b b' : Board) : enterString b = Some b' -> board_step b b'.
Proof.
  unfold enterString.
  destruct (while_available readString EmptyString (delay 2000 b)) as [[v b1]|] eqn:E; [|done].
  intros [= <-]. apply board_step_while_available in E;
    [|exact readString_consumes|exact readString_advances].
  eapply board_step_trans; [apply (board_step_delay 2000); lia|].
  eapply board_step_trans; [exact E|apply board_step_print].
Qed.

Lemma board_step_setDateTime (b b' : Board) : Main.setDateTime b = Some b' -> board_step b b'.
Proof.
  unfold Main.setDateTime, Main.setDateTime_read.
  destruct (while_available readString EmptyString
              (Serial_setTimeout (wrap_u32 (3 * wrap_u32 (Serial_getTimeout b))) (delay 2000 b)))
    as [[str b1]|] eqn:E; [|done].
  intros [= <-]. apply board_step_while_available in E;
    [|exact readString_consumes|exact readString_advances].
  eapply board_step_trans; [apply (board_step_delay 2000); lia|].
  eapply board_step_trans; [apply board_step_setTimeout|].
  eapply board_step_trans; [exact E|].
  eapply board_step_trans; [apply board_step_setTimeout|].
  eapply board_step_trans; [apply board_step_settimeofday|apply board_step_showDateTime].
Qed.

Lemma board_step_println_lines {X : Type} (f : X -> string) (xs : list X) (b : Board) :
  board_step b (fold_left (fun b x => Serial_println (f x) b) xs b).
Proof.
  revert b. induction xs as [|x xs IH]; intros b; cbn [fold_left]; [apply board_step_refl|].
  eapply board_step_trans; [|apply IH]. apply board_step_print.
Qed.

Lemma board_step_showMenu {Item : Type} (item_txt : Item -> string) (st : State Item) :
  board_step (board st) (board (showMenu item_txt st)).
Proof.
  rewrite showMenu_board. cbn [on_board board].
  eapply board_step_trans; [apply board_step_print|].
  eapply board_step_trans; [apply (board_step_println_lines item_txt)|apply board_step_print].
Qed.

Lemma board_step_toggleHeartbeat {Item : Type} (st : State Item) :
  board_step (board st) (board (toggleHeartbeat st)).
Proof.
  unfold toggleHeartbeat. cbn. destruct (negb (heartbeatEnabled st)); apply board_step_print.
Qed.

Lemma Main_invoke_board_step (a : Main.Action) (arg : string) (st st' : Main.St) :
  Main.invoke a arg st = Some st' -> board_step (board st) (board st').
Proof.
  destruct a; cbn [Main.invoke]; intros H;
    try (apply try_on_board_Some in H as (b' & H & ->); cbn [board]);
    try (injection H as <-).
  - by apply board_step_enterFloat.
  - by apply board_step_enterInteger.
  - by apply board_step_enterString.
  - apply board_step_print.
  - by apply board_step_setDateTime.
  - apply board_step_print.
  - apply board_step_showDateTime.
  - apply board_step_showMenu.
  - apply board_step_toggleHeartbeat.
Qed.

Lemma CliMenu_invoke_board_step (a : CliMenu.Action) (st st' : CliMenu.St) :
  CliMenu.invoke a st = Some st' -> board_step (board st) (board st').
Proof.
  destruct a; cbn [CliMenu.invoke]; intros H;
    try (apply try_on_board_Some in H as (b' & H & ->); cbn [board]);
    try (injection H as <-).
  - apply board_step_print.
  - by apply board_step_enterInteger.
  - by apply board_step_enterFloat.
  - by apply board_step_enterString.
  - apply board_step_toggleHeartbeat.
  - apply board_step_showMenu.
Qed.

Lemma read_suffix (clk : Z) (l : rxline) : (read clk l).2 `suffix_of` l.
Proof.
  destruct l as [|[a c] rest]; [done|]. cbn [read].
  destruct (arrived clk a); [by apply suffix_cons_r|done].
Qed.

Lemma board_step_set_rx (l : rxline) (b : Board) :
  l `suffix_of` rx b -> board_step b (set_rx l b).
Proof.
  intros Hs. split_and!;
    [done|done|exists EmptyString; cbn; by rewrite append_nil_r
    |intros H0; cbn; split; [lia|done]].
Qed.

Section DispatchSteps.
Context {Item : Type}.
Variable item_key : Item -> ascii.
Variable item_call : Item -> State Item -> option (State Item).
Variable clear_line : Board -> Board.
Hypothesis call_step :
  forall m s s', item_call m s = Some s' -> board_step (board s) (board s').
Hypothesis clear_step : forall b, board_step b (clear_line b).

Lemma scan_board_step (items : list Item) (k : ascii) (st st' : State Item) :
  scan item_key item_call items k st = Some st' -> board_step (board st) (board st').
Proof using call_step.
  induction items as [|x items IH]; cbn [scan]; [intros [= <-]; apply board_step_refl|].
  destruct (Ascii.eqb k (item_key x)); [|done].
  intros H. by apply call_step in H.
Qed.

Lemma doMenu_board_step (st st' : State Item) :
  doMenu item_key item_call clear_line st = Some st' -> board_step (board st) (board st').
Proof using call_step clear_step.
  unfold doMenu. pose proof (read_suffix (clock (board st)) (rx (board st))) as Hs.
  destruct (read (clock (board st)) (rx (board st))) as [r l]. cbn in Hs.
  intros H. apply scan_board_step in H. cbn [on_board board] in H.
  eapply board_step_trans; [by apply board_step_set_rx|].
  eapply board_step_trans; [apply clear_step|exact H].
Qed.
End DispatchSteps.

Lemma Main_doMenu_board_step (st st' : Main.St) :
  Main.doMenu st = Some st' -> board_step (board st) (board st').
Proof.
  apply doMenu_board_step.
  - intros m s s'. apply Main_invoke_board_step.
  - intros b. apply board_step_print.
Qed.

Lemma CliMenu_doMenu_board_step (st st' : CliMenu.St) :
  CliMenu.doMenu st = Some st' -> board_step (board st) (board st').
Proof.
  apply doMenu_board_step.
  - intros m s s'. apply CliMenu_invoke_board_step.
  - intros b. apply board_step_print.
Qed.

(** ** One pass of [loop] *)

Section LoopSteps.
Context {Item : Type}.
Variable item_key : Item -> ascii.
Variable item_call : Item -> State Item -> option (State Item).
Variable clear_line : Board -> Board.
Hypothesis call_step :
  forall m s s', item_call m s = Some s' -> board_step (board s) (board s').
Hypothesis clear_step : forall b, board_step b (clear_line b).
Hypothesis call_returns : forall m s, is_Some (item_call m s).

Lemma scan_returns (items : list Item) (k : ascii) (st : State Item) :
  is_Some (scan item_key item_call items k st).
Proof using call_returns.
  induction items as [|x items IH]; cbn [scan]; [done|].
  by destruct (Ascii.eqb k (item_key x)).
Qed.

Lemma doMenu_returns (st : State Item) : is_Some (doMenu item_key item_call clear_line st).
Proof using call_returns.
  unfold doMenu. destruct (read (clock (board st)) (rx (board st))) as [r l].
  apply scan_returns.
Qed.

(** [loop] is [doMenu], if a byte is there, followed by [heartbeat], if
    enabled. *)
Lemma loop_cases (st st' : State Item) :
  loop item_key item_call clear_line st = Some st' ->
  exists st1,
    (if available (clock (board st)) (rx (board st))
     then doMenu item_key item_call clear_line st = Some st1 else st1 = st) /\
    st' = (if heartbeatEnabled st1 then on_board (heartbeat LED_BUILTIN 1000 20) st1 else st1).
Proof using Type.
  unfold loop. destruct (available (clock (board st)) (rx (board st))).
  - destruct (doMenu item_key item_call clear_line st) as [st1|]; [|done].
    intros [= <-]. by exists st1.
  - intros [= <-]. by exists st.
Qed.

Lemma loop_returns (st : State Item) : is_Some (loop item_key item_call clear_line st).
Proof using call_returns.
  unfold loop. destruct (available (clock (board st)) (rx (board st))); [|done].
  by destruct (doMenu_returns st) as [st1 ->].
Qed.

(** When a byte is in the buffer, [doMenu] takes at least that byte. *)
Lemma doMenu_takes_key (st st' : State Item) :
  available (clock (board st)) (rx (board st)) = true ->
  doMenu item_key item_call clear_line st = Some st' ->
  (length (rx (board st')) < length (rx (board st)))%nat.
Proof using call_step clear_step.
  unfold doMenu. destruct (rx (board st)) as [|[a c] rest] eqn:Hrx; [done|].
  cbn [available read]. intros ->. intros H.
  apply (scan_board_step item_key item_call call_step) in H as (_ & Hs & _).
  cbn [on_board board] in Hs. apply suffix_length in Hs.
  assert (Hc : rx (clear_line (set_rx rest (board st))) `suffix_of` rest)
    by apply clear_step.
  apply suffix_length in Hc. cbn. lia.
Qed.

(** What one pass of [loop] does to the board. *)
Lemma loop_board (st st' : State Item) :
  loop item_key item_call clear_line st = Some st' ->
  rx (board st') `suffix_of` rx (board st) /\
  (available (clock (board st)) (rx (board st)) = true ->
   (length (rx (board st')) < length (rx (board st)))%nat) /\
  (exists s, tx (board st') = (tx (board st) ++ s)%string) /\
  (0 <= timeout (board st) -> clock (board st) <= clock (board st')) /\
  pins (board st') =
    (if heartbeatEnabled st'
     then <[LED_BUILTIN := millis (board st') mod 1000 <? 20]> (pins (board st))
     else pins (board st)).
Proof using call_step clear_step.
  intros H. apply loop_cases in H as (st1 & H1 & ->).
  assert (Hstep : board_step (board st) (board st1)).
  { destruct (available (clock (board st)) (rx (board st))).
    - by apply (doMenu_board_step item_key item_call clear_line call_step clear_step).
    - subst st1. apply board_step_refl. }
  assert (Hlen : available (clock (board st)) (rx (board st)) = true ->
                 (length (rx (board st1)) < length (rx (board st)))%nat).
  { intros Hav. rewrite Hav in H1. by apply doMenu_takes_key. }
  destruct Hstep as (Hp & Hs & Ht & Hc).
  destruct (heartbeatEnabled st1) eqn:Hhb; cbn [on_board board heartbeatEnabled];
    rewrite ?Hhb; cbn [heartbeat digitalWrite set_pins rx tx clock pins];
    split_and!; try done; try (intros H0; by destruct (Hc H0)).
  by rewrite Hp.
Qed.
End LoopSteps.

(** ** How long a pass of [loop] takes *)

Lemma read_until_cons (clk a : Z) (c : ascii) (rest : rxline) :
  read_until clk ((a, c) :: rest) = read_until (Z.max clk a) rest.
Proof. reflexivity. Qed.

Lemma read_until_ge (l : rxline) : forall clk, clk <= read_until clk l.
Proof.
  induction l as [|[a c] rest IH]; intros clk; [unfold read_until; cbn; lia|].
  rewrite read_until_cons. specialize (IH (Z.max clk a)). lia.
Qed.

Lemma read_until_shift (l : rxline) :
  forall clk d, 0 <= d -> read_until (clk + d) l <= read_until clk l + d.
Proof.
  induction l as [|[a c] rest IH]; intros clk d Hd; [unfold read_until; cbn; lia|].
  rewrite !read_until_cons.
  destruct (Z.max_spec clk a) as [[H ->]|[H ->]].
  - destruct (Z.max_spec (clk + d) a) as [[H' ->]|[H' ->]].
    + pose proof (read_until_ge rest a). lia.
    + specialize (IH a (clk + d - a)). replace (a + (clk + d - a)) with (clk + d) in IH by lia. lia.
  - rewrite Z.max_l by lia. by apply IH.
Qed.

Lemma read_until_mono (l : rxline) :
  forall c1 c2, c1 <= c2 -> read_until c1 l <= read_until c2 l.
Proof.
  induction l as [|[a c] rest IH]; intros c1 c2 H; [done|].
  rewrite !read_until_cons. apply IH. lia.
Qed.

Lemma read_until_suffix (l l' : rxline) (clk : Z) :
  l' `suffix_of` l -> read_until clk l' <= read_until clk l.
Proof.
  intros [k ->]. unfold read_until at 2. rewrite fold_left_app.
  apply read_until_mono. apply (read_until_ge k).
Qed.

Lemma read_until_tail (clk : Z) (p : Z * ascii) (rest : rxline) :
  read_until clk rest <= read_until clk (p :: rest).
Proof. destruct p as [a c]. rewrite read_until_cons. apply read_until_mono. lia. Qed.

(** The polling loop ends with a byte at the later of its start and the
    arrival of the byte, and without one a timeout after its start. *)
Lemma wait_byte_at (tmo clk a : Z) (c : ascii) (rest : rxline) (clk' : Z) (ok : bool) :
  wait_byte tmo clk ((a, c) :: rest) = (clk', ok) ->
  if ok then clk' = Z.max clk a else clk' = clk + tmo.
Proof.
  unfold wait_byte, arrived. destruct (Z.leb_spec a clk); [intros [= <- <-]; lia|].
  destruct (a - clk <? tmo); intros [= <- <-]; lia.
Qed.

Lemma readString_due : in_due_time readString.
Proof.
  intros tmo clk l. revert clk.
  induction l as [|[a c] rest IH]; intros clk s clk' l' Ht.
  - intros [= _ <- <-]. done.
  - cbn [readString].
    destruct (wait_byte tmo clk ((a, c) :: rest)) as [clk1 [|]] eqn:E;
      apply wait_byte_at in E; subst clk1.
    + destruct (readString tmo (Z.max clk a) rest) as [[s1 clk2] l1] eqn:E1.
      intros [= _ <- <-]. rewrite read_until_cons. by eapply IH.
    + intros [= _ <- <-]. by apply read_until_shift.
Qed.

(** [peekNextDigit] finds a digit without waiting for a timeout. *)
Lemma peekNextDigit_due (tmo : Z) (l : rxline) :
  forall clk r clk' l',
    0 <= tmo -> peekNextDigit tmo clk l = (r, clk', l') ->
    read_until clk' l' <= read_until clk l + match r with Some _ => 0 | None => tmo end.
Proof.
  induction l as [|[a c] rest IH]; intros clk r clk' l' Ht.
  - intros [= <- <- <-]. done.
  - cbn [peekNextDigit].
    destruct (wait_byte tmo clk ((a, c) :: rest)) as [clk1 [|]] eqn:E;
      apply wait_byte_at in E; subst clk1.
    + destruct (is_minus c || is_digit c).
      * intros [= <- <- <-]. rewrite !read_until_cons. rewrite Z.max_l by lia. lia.
      * intros H. rewrite read_until_cons. by eapply IH.
    + intros [= <- <- <-]. by apply read_until_shift.
Qed.

Lemma parseInt_loop_due (tmo : Z) (rest : rxline) :
  forall c clk acc acc' clk' l',
    0 <= tmo -> parseInt_loop tmo c clk rest acc = (acc', clk', l') ->
    read_until clk' l' <= read_until clk rest + tmo.
Proof.
  induction rest as [|[a c1] rest IH]; intros c clk acc acc' clk' l' Ht.
  - intros [= _ <- <-]. done.
  - cbn [parseInt_loop].
    destruct (wait_byte tmo clk ((a, c1) :: rest)) as [clk1 [|]] eqn:E;
      apply wait_byte_at in E; subst clk1.
    + destruct (is_digit c1 || is_skip c1).
      * intros H. rewrite read_until_cons. by eapply IH.
      * intros [= _ <- <-]. rewrite !read_until_cons. rewrite Z.max_l by lia. lia.
    + intros [= _ <- <-]. by apply read_until_shift.
Qed.

Lemma parseFloat_loop_due (tmo : Z) (rest : rxline) :
  forall c clk v v' clk' l',
    0 <= tmo -> parseFloat_loop tmo c clk rest v = (v', clk', l') ->
    read_until clk' l' <= read_until clk rest + tmo.
Proof.
  induction rest as [|[a c1] rest IH]; intros c clk v v' clk' l' Ht.
  - intros [= _ <- <-]. done.
  - cbn [parseFloat_loop].
    destruct (wait_byte tmo clk ((a, c1) :: rest)) as [clk1 [|]] eqn:E;
      apply wait_byte_at in E; subst clk1.
    + destruct (is_digit c1 || is_dot c1 || is_skip c1).
      * intros H. rewrite read_until_cons. by eapply IH.
      * intros [= _ <- <-]. rewrite !read_until_cons. rewrite Z.max_l by lia. lia.
    + intros [= _ <- <-]. by apply read_until_shift.
Qed.

Lemma parseInt_due : in_due_time parseInt.
Proof.
  intros tmo clk l v clk' l' Ht. unfold parseInt.
  destruct (peekNextDigit tmo clk l) as [[r clk1] l1] eqn:E.
  apply peekNextDigit_due in E; [|done].
  destruct r as [c|]; [|intros [= _ <- <-]; lia].
  destruct l1 as [|p rest]; [intros [= _ <- <-]; lia|].
  destruct (parseInt_loop tmo c clk1 rest (false, 0)) as [[[neg val] clk2] l2] eqn:E2.
  intros [= _ <- <-]. apply parseInt_loop_due in E2; [|done].
  pose proof (read_until_tail clk1 p rest). lia.
Qed.

Lemma parseDouble_due : in_due_time parseDouble.
Proof.
  intros tmo clk l v clk' l' Ht. unfold parseDouble, parseFloat.
  destruct (peekNextDigit tmo clk l) as [[r clk1] l1] eqn:E.
  apply peekNextDigit_due in E; [|done].
  destruct r as [c|]; [|intros [= _ <- <-]; lia].
  destruct l1 as [|p rest]; [intros [= _ <- <-]; lia|].
  destruct (parseFloat_loop tmo c clk1 rest (mk_pf false false 0 float_1))
    as [[vars clk2] l2] eqn:E2.
  intros [= _ <- <-]. apply parseFloat_loop_due in E2; [|done].
  pose proof (read_until_tail clk1 p rest). lia.
Qed.

(** The loop [while (Serial.available())] is done as many timeouts after
    the last byte has come as there are bytes, at the latest. *)
Lemma drain_due {A : Type} (parse : Z -> Z -> rxline -> A * Z * rxline) (fuel : nat) :
  consumes parse -> in_due_time parse ->
  forall tmo v clk l v' clk' l',
    0 <= tmo -> drain parse fuel tmo v clk l = Some (v', clk', l') ->
    read_until clk' l' <= read_until clk l + Z.of_nat (length l) * tmo.
Proof.
  intros Hc Hd. induction fuel as [|fuel IH]; intros tmo v clk l v' clk' l' Ht; cbn [drain];
    destruct (available clk l) eqn:Hav; try done; try (intros [= _ <- <-]; nia).
  destruct (parse tmo clk l) as [[v1 clk1] l1] eqn:E.
  intros H. apply IH in H; [|done].
  destruct (Hc _ _ _ _ _ _ E) as [_ Hlen]. specialize (Hlen Hav).
  apply Hd in E; [|done]. nia.
Qed.

Lemma while_available_due {A : Type} (parse : Z -> Z -> rxline -> A * Z * rxline)
    (v v' : A) (b b' : Board) :
  consumes parse -> in_due_time parse -> 0 <= timeout b ->
  while_available parse v b = Some (v', b') ->
  clock b' <= read_until (clock b) (rx b) + Z.of_nat (length (rx b)) * timeout b.
Proof.
  intros Hc Hd Ht. unfold while_available.
  destruct (drain parse (S (length (rx b))) (timeout b) v (clock b) (rx b))
    as [[[v1 clk1] l1]|] eqn:E; [|done].
  intros [= _ <-]. cbn [clock set_rx set_clock].
  apply (drain_due parse _ Hc Hd) in E; [|done].
  pose proof (read_until_ge l1 clk1). lia.
Qed.

Lemma enterInteger_due (b b' : Board) :
  0 <= timeout b -> enterInteger b = Some b' -> clock b' <= deadline 1 b.
Proof.
  intros Ht. unfold enterInteger, deadline.
  destruct (while_available parseInt 0 (delay 2000 b)) as [[v b1]|] eqn:E; [|done].
  intros [= <-]. apply while_available_due in E;
    [|exact parseInt_consumes|exact parseInt_due|done].
  cbn [clock rx timeout delay set_clock Serial_print set_tx] in *. lia.
Qed.

Lemma enterFloat_due (b b' : Board) :
  0 <= timeout b -> enterFloat b = Some b' -> clock b' <= deadline 1 b.
Proof.
  intros Ht. unfold enterFloat, deadline.
  destruct (while_available parseDouble (S754_zero false) (delay 2000 b)) as [[v b1]|] eqn:E;
    [|done].
  intros [= <-]. apply while_available_due in E;
    [|exact parseDouble_consumes|exact parseDouble_due|done].
  cbn [clock rx timeout delay set_clock Serial_print set_tx] in *. lia.
Qed.

Lemma enterString_due (b b' : Board) :
  0 <= timeout b -> enterString b = Some b' -> clock b' <= deadline 1 b.
Proof.
  intros Ht. unfold enterString, deadline.
  destruct (while_available readString EmptyString (delay 2000 b)) as [[v b1]|] eqn:E; [|done].
  intros [= <-]. apply while_available_due in E;
    [|exact readString_consumes|exact readString_due|done].
  cbn [clock rx timeout delay set_clock Serial_print set_tx] in *. lia.
Qed.

(** [getLocalTime] waits 10 ms per pass. *)
Lemma getLocalTime_loop_due (n : nat) :
  forall start ms info b,
    clock (getLocalTime_loop n start ms info b).2 <= clock b + 10 * Z.of_nat n.
Proof.
  induction n as [|n IH]; intros start ms info b; cbn [getLocalTime_loop]; [cbn; lia|].
  destruct (wrap_u32 (millis b - start) <=? ms); [|cbn; lia].
  destruct (2016 - 1900 <? tm_year (localtime (time b))); [cbn; lia|].
  specialize (IH start ms (localtime (time b)) (delay 10 b)).
  cbn [clock delay set_clock] in IH. lia.
Qed.

Lemma showDateTime_due (b : Board) : clock (Main.showDateTime b) <= clock b + 5020.
Proof.
  unfold Main.showDateTime, getLocalTime.
  pose proof (getLocalTime_loop_due 502 (millis b) 5000 (uninit_tm b) b) as H.
  destruct (getLocalTime_loop 502 (millis b) 5000 (uninit_tm b) b) as [[ok info] b'].
  cbn [snd] in H. cbn [clock Serial_print set_tx]. lia.
Qed.

Lemma setDateTime_due (b b' : Board) :
  0 <= timeout b -> 3 * timeout b < 2 ^ 32 ->
  Main.setDateTime b = Some b' -> clock b' <= deadline 3 b + 5020.
Proof.
  intros Ht H3.
  assert (Hw : wrap_u32 (timeout b) = timeout b) by (apply wrap_u32_small; lia).
  assert (Hw3 : wrap_u32 (3 * timeout b) = 3 * timeout b) by (apply wrap_u32_small; lia).
  unfold Main.setDateTime, Main.setDateTime_read, Serial_getTimeout, deadline.
  rewrite Hw, Hw3.
  destruct (while_available readString EmptyString
              (Serial_setTimeout (3 * timeout b) (delay 2000 b))) as [[v b1]|] eqn:E; [|done].
  intros [= <-]. apply while_available_due in E;
    [|exact readString_consumes|exact readString_due
     |cbn [timeout Serial_setTimeout]; rewrite Hw3; lia].
  cbn [clock rx timeout delay set_clock Serial_setTimeout] in E. rewrite Hw3 in E.
  match goal with |- clock (Main.showDateTime ?X) <= _ => pose proof (showDateTime_due X) as H end.
  cbn [clock settimeofday Serial_setTimeout] in H. etrans; [exact H|lia].
Qed.

Lemma clock_println_lines {X : Type} (f : X -> string) (xs : list X) (b : Board) :
  clock (fold_left (fun b x => Serial_println (f x) b) xs b) = clock b.
Proof. revert b. induction xs as [|x xs IH]; intros b; cbn [fold_left]; [done|]. by rewrite IH. Qed.

Lemma deadline_ge (k : Z) (b : Board) :
  0 <= k -> 0 <= timeout b -> clock b + 2000 <= deadline k b.
Proof.
  intros Hk Ht. unfold deadline. pose proof (read_until_ge (rx b) (clock b + 2000)). nia.
Qed.

Lemma deadline_le (k k' : Z) (b : Board) :
  k <= k' -> 0 <= timeout b -> deadline k b <= deadline k' b.
Proof.
  intros Hk Ht. unfold deadline. apply Z.add_le_mono_l.
  apply Z.mul_le_mono_nonneg_l; [lia|]. by apply Z.mul_le_mono_nonneg_r.
Qed.

(** Taking bytes off the line, or printing, does not put off the deadline. *)
Lemma deadline_suffix (k : Z) (b b1 : Board) :
  0 <= k -> 0 <= timeout b ->
  clock b1 = clock b -> timeout b1 = timeout b -> rx b1 `suffix_of` rx b ->
  deadline k b1 <= deadline k b.
Proof.
  intros Hk Ht Hc Hto Hs. unfold deadline. rewrite Hc, Hto.
  apply Z.add_le_mono; [by apply read_until_suffix|].
  apply suffix_length in Hs. apply Z.mul_le_mono_nonneg_r; [|lia].
  by apply Z.mul_nonneg_nonneg.
Qed.

Lemma Main_invoke_due (a : Main.Action) (arg : string) (st st' : Main.St) :
  0 <= timeout (board st) -> 3 * timeout (board st) < 2 ^ 32 ->
  Main.invoke a arg st = Some st' ->
  clock (board st') <= deadline 3 (board st) + 5020.
Proof.
  intros Ht H3.
  pose proof (deadline_ge 3 (board st) ltac:(lia) Ht) as Hge.
  pose proof (deadline_le 1 3 (board st) ltac:(lia) Ht) as Hle.
  destruct a; cbn [Main.invoke]; intros H;
    try (apply try_on_board_Some in H as (b' & H & ->); cbn [board]);
    try (injection H as <-).
  - apply enterFloat_due in H; [lia|done].
  - apply enterInteger_due in H; [lia|done].
  - apply enterString_due in H; [lia|done].
  - cbn. lia.
  - by apply setDateTime_due.
  - cbn. lia.
  - cbn [on_board board]. pose proof (showDateTime_due (board st)). lia.
  - rewrite showMenu_board. cbn [on_board board Serial_print set_tx clock].
    rewrite clock_println_lines. cbn. lia.
  - unfold toggleHeartbeat. cbn. destruct (negb (heartbeatEnabled st)); cbn; lia.
Qed.

Lemma CliMenu_invoke_due (a : CliMenu.Action) (st st' : CliMenu.St) :
  0 <= timeout (board st) ->
  CliMenu.invoke a st = Some st' ->
  clock (board st') <= deadline 1 (board st).
Proof.
  intros Ht.
  pose proof (deadline_ge 1 (board st) ltac:(lia) Ht) as Hge.
  destruct a; cbn [CliMenu.invoke]; intros H;
    try (apply try_on_board_Some in H as (b' & H & ->); cbn [board]);
    try (injection H as <-).
  - cbn. lia.
  - by apply enterInteger_due.
  - by apply enterFloat_due.
  - by apply enterString_due.
  - unfold toggleHeartbeat. cbn. destruct (negb (heartbeatEnabled st)); cbn; lia.
  - rewrite showMenu_board. cbn [on_board board Serial_print set_tx clock].
    rewrite clock_println_lines. cbn. lia.
Qed.

Section LoopDue.
Context {Item : Type}.
Variable item_key : Item -> ascii.
Variable item_call : Item -> State Item -> option (State Item).
Variable clear_line : Board -> Board.
Variable P : Board -> Prop.
Variable D : Board -> Z.
Hypothesis call_due :
  forall m s s', P (board s) -> item_call m s = Some s' -> clock (board s') <= D (board s).
Hypothesis D_ge : forall b, P b -> clock b <= D b.
Hypothesis D_read :
  forall b l, P b -> l `suffix_of` rx b ->
    P (clear_line (set_rx l b)) /\ D (clear_line (set_rx l b)) <= D b.

Lemma scan_due (items : list Item) (k : ascii) (st st' : State Item) :
  P (board st) ->
  scan item_key item_call items k st = Some st' -> clock (board st') <= D (board st).
Proof using call_due D_ge.
  intros HP. induction items as [|x items IH]; cbn [scan]; [intros [= <-]; by apply D_ge|].
  destruct (Ascii.eqb k (item_key x)); [|done].
  intros H. by apply call_due in H.
Qed.

Lemma loop_due (st st' : State Item) :
  P (board st) ->
  loop item_key item_call clear_line st = Some st' ->
  clock (board st') <= D (board st).
Proof using call_due D_ge D_read.
  intros HP H. apply loop_cases in H as (st1 & H1 & ->).
  assert (E : clock (board st1) <= D (board st)).
  { destruct (available (clock (board st)) (rx (board st))); [|subst; by apply D_ge].
    unfold doMenu in H1.
    pose proof (read_suffix (clock (board st)) (rx (board st))) as Hs.
    destruct (read (clock (board st)) (rx (board st))) as [r l]. cbn [snd] in Hs.
    destruct (D_read (board st) l HP Hs) as [HP1 HD1].
    apply scan_due in H1; cbn [on_board board] in *; [lia|done]. }
  by destruct (heartbeatEnabled st1).
Qed.
End LoopDue.

(** X1.  When the sender stops at some time, so that the serial line is a
    finite sequence of bytes, every pass of [loop] returns, whatever these
    bytes are and whenever they come, and it returns in due time: take the
    later of the end of the two seconds an action waits and the arrival of
    the last byte; [loop] is back one timeout per byte after that, at the
    latest, in cliMenu.cpp, and three timeouts per byte and the 5020 ms
    [getLocalTime] can take after that in main.cpp.  (Against a sender that
    never pauses for as long as the timeout the loops of the sketch do not
    end; such a line has no last byte.) *)
Theorem loop_returns_in_due_time :
  (forall st : Main.St,
     0 <= timeout (board st) -> 3 * timeout (board st) < 2 ^ 32 ->
     exists st',
       Main.loop st = Some st' /\
       clock (board st') <=
         read_until (clock (board st) + 2000) (rx (board st))
         + Z.of_nat (length (rx (board st))) * (3 * timeout (board st)) + 5020) /\
  (forall st : CliMenu.St,
     0 <= timeout (board st) ->
     exists st',
       CliMenu.loop st = Some st' /\
       clock (board st') <=
         read_until (clock (board st) + 2000) (rx (board st))
         + Z.of_nat (length (rx (board st))) * timeout (board st)).
Proof.
  split.
  - intros st Ht H3.
    destruct (loop_returns Main.key Main.call CLEAR_LINE
                (fun m s => Main_invoke_returns _ _ s) st) as [st' E].
    exists st'. split; [exact E|].
    apply (loop_due Main.key Main.call CLEAR_LINE
             (fun b => 0 <= timeout b /\ 3 * timeout b < 2 ^ 32)
             (fun b => deadline 3 b + 5020)) in E; [exact E| | | |done].
    + intros m s s' [? ?]. by apply Main_invoke_due.
    + intros b [? ?]. pose proof (deadline_ge 3 b ltac:(lia) ltac:(done)). lia.
    + intros b l [? ?] Hs. split; [done|].
      pose proof (deadline_suffix 3 b (CLEAR_LINE (set_rx l b)) ltac:(lia) ltac:(done)
                    eq_refl eq_refl Hs). lia.
  - intros st Ht.
    destruct (loop_returns CliMenu.key CliMenu.call (Serial_print CLR_LINE)
                (fun m s => CliMenu_invoke_returns _ s) st) as [st' E].
    exists st'. split; [exact E|].
    apply (loop_due CliMenu.key CliMenu.call (Serial_print CLR_LINE)
             (fun b => 0 <= timeout b) (deadline 1)) in E; [|..|done].
    + unfold deadline in E. lia.
    + intros m s s' ?. by apply CliMenu_invoke_due.
    + intros b ?. pose proof (deadline_ge 1 b ltac:(lia) ltac:(done)). lia.
    + intros b l ? Hs. split; [done|].
      apply (deadline_suffix 1 b (Serial_print CLR_LINE (set_rx l b)) ltac:(lia) ltac:(done)
               eq_refl eq_refl Hs).
Qed.

(** An instance of X1: the pass of [loop] of main.cpp that sets the date,
    with the 20 bytes typed at boot and a timeout of 1000 ms, is over
    after 67020 ms at the latest. *)
Lemma loop_returns_in_due_time_witness :
  exists st',
    Main.loop (boot Main.menu (example_board 0 "d2024 10 24 12 30 00")) = Some st' /\
    clock (board st') <= 67020.
Proof.
  destruct loop_returns_in_due_time as [H _].
  destruct (H (boot Main.menu (example_board 0 "d2024 10 24 12 30 00")))
    as (st' & E & Hc); [discriminate|reflexivity|].
  exists st'. split; [exact E|exact Hc].
Defined.

Lemma Main_loop_board (st st' : Main.St) :
  Main.loop st = Some st' ->
  rx (board st') `suffix_of` rx (board st) /\
  (available (clock (board st)) (rx (board st)) = true ->
   (length (rx (board st')) < length (rx (board st)))%nat) /\
  (exists s, tx (board st') = (tx (board st) ++ s)%string) /\
  (0 <= timeout (board st) -> clock (board st) <= clock (board st')) /\
  pins (board st') =
    (if heartbeatEnabled st'
     then <[LED_BUILTIN := millis (board st') mod 1000 <? 20]> (pins (board st))
     else pins (board st)).
Proof.
  apply loop_board.
  - intros m s s'. apply Main_invoke_board_step.
  - intros b. apply board_step_print.
Qed.

Lemma CliMenu_loop_board (st st' : CliMenu.St) :
  CliMenu.loop st = Some st' ->
  rx (board st') `suffix_of` rx (board st) /\
  (available (clock (board st)) (rx (board st)) = true ->
   (length (rx (board st')) < length (rx (board st)))%nat) /\
  (exists s, tx (board st') = (tx (board st) ++ s)%string) /\
  (0 <= timeout (board st) -> clock (board st) <= clock (board st')) /\
  pins (board st') =
    (if heartbeatEnabled st'
     then <[LED_BUILTIN := millis (board st') mod 1000 <? 20]> (pins (board st))
     else pins (board st)).
Proof.
  apply loop_board.
  - intros m s s'. apply CliMenu_invoke_board_step.
  - intros b. apply board_step_print.
Qed.

(** X2.  No action writes a GPIO pin: [doMenu] leaves all pins as they are,
    and a pass of [loop] writes the LED pin, by [heartbeat], exactly when
    the heartbeat is enabled at its end; with the heartbeat disabled the
    LED keeps the level written last. *)
Theorem only_heartbeat_writes_pins :
  (forall st st' : Main.St,
     Main.doMenu st = Some st' -> pins (board st') = pins (board st)) /\
  (forall st st' : Main.St,
     Main.loop st = Some st' ->
     pins (board st') =
       (if heartbeatEnabled st'
        then <[LED_BUILTIN := millis (board st') mod 1000 <? 20]> (pins (board st))
        else pins (board st))) /\
  (forall st st' : CliMenu.St,
     CliMenu.doMenu st = Some st' -> pins (board st') = pins (board st)) /\
  (forall st st' : CliMenu.St,
     CliMenu.loop st = Some st' ->
     pins (board st') =
       (if heartbeatEnabled st'
        then <[LED_BUILTIN := millis (board st') mod 1000 <? 20]> (pins (board st))
        else pins (board st))).
Proof.
  split_and!.
  - intros st st' H. by apply Main_doMenu_board_step in H as [? _].
  - intros st st' H. by apply Main_loop_board in H as (_ & _ & _ & _ & ?).
  - intros st st' H. by apply CliMenu_doMenu_board_step in H as [? _].
  - intros st st' H. by apply CliMenu_loop_board in H as (_ & _ & _ & _ & ?).
Qed.

(** An instance of X2: the pass of [loop] of cliMenu.cpp that serves the key
    [t] switches the heartbeat off and leaves the pins alone. *)
Lemma only_heartbeat_writes_pins_witness :
  exists st',
    CliMenu.loop (boot CliMenu.menu (example_board 0 "t")) = Some st' /\
    heartbeatEnabled st' = false /\
    pins (board st') = pins (board (boot CliMenu.menu (example_board 0 "t"))).
Proof.
  destruct only_heartbeat_writes_pins as (_ & _ & _ & H).
  destruct (CliMenu.loop (boot CliMenu.menu (example_board 0 "t"))) as [st'|] eqn:E;
    [|vm_compute in E; discriminate E].
  exists st'. split; [reflexivity|].
  assert (Hhb : heartbeatEnabled st' = false)
    by (vm_compute in E; injection E as <-; reflexivity).
  split; [exact Hhb|]. rewrite (H _ _ E), Hhb. reflexivity.
Defined.

Lemma entering_takes_2000 {A : Type} (parse : Z -> Z -> rxline -> A * Z * rxline)
    (v v' : A) (b b1 : Board) :
  consumes parse -> advances parse -> 0 <= timeout b ->
  while_available parse v (delay 2000 b) = Some (v', b1) -> clock b + 2000 <= clock b1.
Proof.
  intros Hc Ha H0 E. apply board_step_while_available in E as (_ & _ & _ & E); [|done..].
  by destruct (E H0).
Qed.

(** X3.  Time does not run backwards through a pass of [loop], and the
    actions that read a value return 2000 ms after they were called at the
    earliest: for that long at least the loop, and with it the heartbeat,
    stands still.  (The timeout of the serial port is an unsigned number.) *)
Theorem entering_blocks_the_loop :
  (forall b b', 0 <= timeout b -> enterInteger b = Some b' -> clock b + 2000 <= clock b') /\
  (forall b b', 0 <= timeout b -> enterFloat b = Some b' -> clock b + 2000 <= clock b') /\
  (forall b b', 0 <= timeout b -> enterString b = Some b' -> clock b + 2000 <= clock b') /\
  (forall b b', 0 <= timeout b -> Main.setDateTime b = Some b' -> clock b + 2000 <= clock b') /\
  (forall st st' : Main.St,
     0 <= timeout (board st) -> Main.loop st = Some st' ->
     clock (board st) <= clock (board st')) /\
  (forall st st' : CliMenu.St,
     0 <= timeout (board st) -> CliMenu.loop st = Some st' ->
     clock (board st) <= clock (board st')).
Proof.
  split_and!.
  - intros b b' H0. unfold enterInteger.
    destruct (while_available parseInt 0 (delay 2000 b)) as [[v b1]|] eqn:E; [|done].
    intros [= <-]. cbn [Serial_print set_tx clock].
    by apply (entering_takes_2000 parseInt 0 v b b1 parseInt_consumes parseInt_advances).
  - intros b b' H0. unfold enterFloat.
    destruct (while_available parseDouble (S754_zero false) (delay 2000 b))
      as [[v b1]|] eqn:E; [|done].
    intros [= <-]. cbn [Serial_print set_tx clock].
    by apply (entering_takes_2000 parseDouble (S754_zero false) v b b1
                parseDouble_consumes parseDouble_advances).
  - intros b b' H0. unfold enterString.
    destruct (while_available readString EmptyString (delay 2000 b)) as [[v b1]|] eqn:E;
      [|done].
    intros [= <-]. cbn [Serial_print set_tx clock].
    by apply (entering_takes_2000 readString EmptyString v b b1
                readString_consumes readString_advances).
  - intros b b' H0. unfold Main.setDateTime, Main.setDateTime_read.
    destruct (while_available readString EmptyString
                (Serial_setTimeout (wrap_u32 (3 * wrap_u32 (Serial_getTimeout b)))
                   (delay 2000 b))) as [[str b1]|] eqn:E; [|done].
    intros [= <-].
    apply board_step_while_available in E as (_ & _ & _ & E);
      [|exact readString_consumes|exact readString_advances].
    destruct E as [E _]; [cbn; unfold wrap_u32; apply Z.mod_pos_bound; lia|].
    cbn [Serial_setTimeout delay set_clock clock] in E.
    match goal with
    | |- _ <= clock (Main.showDateTime ?X) =>
        pose proof (board_step_showDateTime X) as (_ & _ & _ & Hc)
    end.
    destruct Hc as [Hc _]; [cbn; unfold wrap_u32; apply Z.mod_pos_bound; lia|].
    cbn [settimeofday Serial_setTimeout clock] in Hc. lia.
  - intros st st' H0 H. apply Main_loop_board in H as (_ & _ & _ & H & _). by apply H.
  - intros st st' H0 H. apply CliMenu_loop_board in H as (_ & _ & _ & H & _). by apply H.
Qed.

(** An instance of X3: [enterInteger] on the example board, where "42" is
    in the buffer, returns at 3000 ms: 2000 ms of delay and the timeout. *)
Lemma entering_blocks_the_loop_witness :
  exists b', enterInteger (example_board 0 "42") = Some b' /\ 0 + 2000 <= clock b'.
Proof.
  destruct entering_blocks_the_loop as [H _].
  destruct (enterInteger (example_board 0 "42")) as [b'|] eqn:E;
    [|vm_compute in E; discriminate E].
  exists b'. split; [reflexivity|].
  apply (H (example_board 0 "42") b'); [discriminate|exact E].
Defined.

(** X4.  Input is only ever taken off the front of the serial line: after a
    pass of [loop] the line is a final part of what it was, shorter by at
    least the key when a byte was in the buffer; and the actions that read
    a value return only when the buffer is empty. *)
Theorem input_is_consumed_in_order :
  (forall st st' : Main.St,
     Main.loop st = Some st' ->
     rx (board st') `suffix_of` rx (board st) /\
     (available (clock (board st)) (rx (board st)) = true ->
      (length (rx (board st')) < length (rx (board st)))%nat)) /\
  (forall st st' : CliMenu.St,
     CliMenu.loop st = Some st' ->
     rx (board st') `suffix_of` rx (board st) /\
     (available (clock (board st)) (rx (board st)) = true ->
      (length (rx (board st')) < length (rx (board st)))%nat)) /\
  (forall b b', enterInteger b = Some b' -> available (clock b') (rx b') = false) /\
  (forall b b', enterFloat b = Some b' -> available (clock b') (rx b') = false) /\
  (forall b b', enterString b = Some b' -> available (clock b') (rx b') = false).
Proof.
  split_and!.
  - intros st st' H. apply Main_loop_board in H as (? & ? & _). by split.
  - intros st st' H. apply CliMenu_loop_board in H as (? & ? & _). by split.
  - intros b b'. destruct (enterInteger_returns b) as (clk & l & -> & Hav & _).
    by intros [= <-].
  - intros b b'. destruct (enterFloat_returns b) as (clk & l & -> & Hav & _).
    by intros [= <-].
  - intros b b'. destruct (enterString_returns b) as (clk & l & -> & Hav & _).
    by intros [= <-].
Qed.

(** An instance of X4: the pass of [loop] of main.cpp that serves "i12 34"
    leaves nothing on the line. *)
Lemma input_is_consumed_in_order_witness :
  exists st',
    Main.loop (boot Main.menu (example_board 0 "i12 34")) = Some st' /\
    (length (rx (board st')) < 6)%nat.
Proof.
  destruct input_is_consumed_in_order as [H _].
  destruct (Main.loop (boot Main.menu (example_board 0 "i12 34"))) as [st'|] eqn:E;
    [|vm_compute in E; discriminate E].
  exists st'. split; [reflexivity|].
  destruct (H _ _ E) as [_ Hlt]. exact (Hlt eq_refl).
Defined.

(** ** Nothing typed in time *)

(** X5.  When no byte is in the receive buffer 2000 ms after the action
    was called, [enterInteger] reports 0, [enterFloat] reports 0.000000 and
    [enterString] prints the empty text; each returns after exactly 2000 ms
    and leaves the serial line as it is, so what is typed later is taken
    for menu keys. *)
Theorem nothing_typed_in_time :
  forall b : Board,
    available (clock b + 2000) (rx b) = false ->
    enterInteger b = Some (Serial_print "0 was entered " (delay 2000 b)) /\
    enterFloat b = Some (Serial_print "0.000000 was entered " (delay 2000 b)) /\
    enterString b = Some (Serial_print EmptyString (delay 2000 b)).
Proof.
  intros b Hav.
  unfold enterInteger, enterFloat, enterString, while_available.
  cbn [delay set_clock rx clock timeout length drain]. rewrite Hav.
  split_and!; reflexivity.
Qed.

(** An instance of X5: "42" typed 5 s after the key [i]. *)
Lemma nothing_typed_in_time_witness :
  option_map (fun b => (tx b, rx b, clock b)) (enterInteger (example_board 5000 "42"))
  = Some ("0 was entered "%string, typed 5000 "42", 2000).
Proof.
  destruct (nothing_typed_in_time (example_board 5000 "42") eq_refl) as [-> _].
  reflexivity.
Defined.

(** ** The real-time clock *)

Lemma getLocalTime_loop_rtc (n : nat) :
  forall start ms info b,
    let b' := (getLocalTime_loop n start ms info b).2 in
    rx b' = rx b /\ tx b' = tx b /\ rtc_writes b' = rtc_writes b /\
    rtc_at_boot b' = rtc_at_boot b.
Proof.
  induction n as [|n IH]; intros start ms info b; cbn [getLocalTime_loop]; [done|].
  destruct (wrap_u32 (millis b - start) <=? ms); [|done].
  destruct (2016 - 1900 <? tm_year (localtime (time b))); [done|].
  apply (IH start ms (localtime (time b)) (delay 10 b)).
Qed.

Lemma showDateTime_rtc (b : Board) :
  rx (Main.showDateTime b) = rx b /\
  rtc_writes (Main.showDateTime b) = rtc_writes b /\
  rtc_at_boot (Main.showDateTime b) = rtc_at_boot b.
Proof.
  unfold Main.showDateTime, getLocalTime.
  pose proof (getLocalTime_loop_rtc 502 (millis b) 5000 (uninit_tm b) b) as H.
  destruct (getLocalTime_loop 502 (millis b) 5000 (uninit_tm b) b) as [[ok info] b'].
  cbn in H. by destruct H as (? & _ & ? & ?).
Qed.


(** [mktime] of a time that [time_t] holds. *)
Lemma mktime_fits (t : tm) :
  fits_time_t (calendar_seconds t) = true -> mktime t = calendar_seconds t.
Proof. unfold mktime. cbv zeta. by intros ->. Qed.



(** X7.  [setDateTime] does not check what it has read.  When no byte is in
    the receive buffer 2000 ms after the call, [sscanf] converts nothing,
    and the clock is set all the same, from the uninitialised [tm] with its
    month lowered by 1 and its year by 1900: to the time these members
    happen to denote, when it is one that [time_t] holds.  The serial line
    is left as it is. *)
Theorem setDateTime_without_input :
  forall b : Board,
    available (clock b + 2000) (rx b) = false ->
    let g := mk_tm (tm_sec (uninit_tm b)) (tm_min (uninit_tm b)) (tm_hour (uninit_tm b))
                   (tm_mday (uninit_tm b)) (wrap_i32 (tm_mon (uninit_tm b) - 1))
                   (wrap_i32 (tm_year (uninit_tm b) - 1900))
                   (tm_wday (uninit_tm b)) (tm_yday (uninit_tm b))
                   (tm_isdst (uninit_tm b)) in
    exists b' sec,
      Main.setDateTime b = Some b' /\
      rx b' = rx b /\
      rtc_writes b' = rtc_writes b ++ [mk_timeval sec 0] /\
      (fits_time_t (calendar_seconds g) = true -> sec = calendar_seconds g).
Proof.
  intros b Hav g.
  unfold Main.setDateTime, Main.setDateTime_read, while_available.
  cbn [Serial_setTimeout delay set_clock rx clock timeout length drain]. rewrite Hav.
  eexists _, (mktime g). split; [reflexivity|].
  match goal with
  | |- rx (Main.showDateTime ?X) = _ /\ _ =>
      destruct (showDateTime_rtc X) as (-> & -> & _)
  end.
  split; [reflexivity|]. split; [reflexivity|]. apply mktime_fits.
Qed.

(** An instance of X7: [setDateTime] with nothing typed, on a board whose
    uninitialised [tm] happens to hold the members 0, 0, 0, 1, 1, 2000:
    the clock is set to 1 January 2000, 0:00:00. *)
Lemma setDateTime_without_input_witness :
  exists b',
    Main.setDateTime (mkBoard 0 [] 1000 EmptyString ∅ 0 [] (mk_tm 0 0 0 1 1 2000 0 0 0))
      = Some b' /\
    rtc_writes b' = [mk_timeval 946684800 0].
Proof.
  destruct (setDateTime_without_input
              (mkBoard 0 [] 1000 EmptyString ∅ 0 [] (mk_tm 0 0 0 1 1 2000 0 0 0)) eq_refl)
    as (b' & sec & H1 & _ & H3 & H4).
  exists b'. split; [exact H1|]. rewrite H3, (H4 eq_refl). reflexivity.
Defined.

(** ** Typing at the pace of the timeout *)

(** [readString] takes the whole of a line typed at a pace it keeps up
    with, and returns one timeout after the last byte. *)
Lemma readString_in_time (tmo : Z) (l : rxline) :
  forall clk, in_time tmo clk l ->
    readString tmo clk l = (string_of_list_ascii (map snd l), read_until clk l + tmo, []).
Proof.
  induction l as [|[a c] rest IH]; intros clk; [reflexivity|].
  cbn [in_time]. intros [Ha Hrest]. cbn [readString wait_byte]. unfold arrived.
  destruct (Z.leb_spec a clk) as [Hle|Hgt].
  - rewrite Z.max_l in Hrest by done. rewrite (IH _ Hrest).
    cbn [map snd string_of_list_ascii]. unfold read_until. cbn [fold_left fst].
    by rewrite Z.max_l.
  - assert (Hlt : a - clk < tmo) by lia.
    rewrite (proj2 (Z.ltb_lt _ _) Hlt). rewrite Z.max_r in Hrest by lia.
    rewrite (IH _ Hrest).
    cbn [map snd string_of_list_ascii]. unfold read_until. cbn [fold_left fst].
    rewrite Z.max_r by lia. reflexivity.
Qed.

Lemma drain_nil {A : Type} (parse : Z -> Z -> rxline -> A * Z * rxline) (fuel : nat)
    (tmo : Z) (v : A) (clk : Z) :
  drain parse fuel tmo v clk [] = Some (v, clk, []).
Proof. by destruct fuel. Qed.

(** X8.  [enterString] echoes what was typed: if the first byte is in the
    buffer 2000 ms after the call and every later byte comes less than the
    timeout after the one before it, the whole text is printed as it is
    and nothing is left on the line; the action returns, and the text shows,
    only one timeout after the last byte was read. *)
Theorem enterString_echoes :
  forall b : Board,
    available (clock b + 2000) (rx b) = true ->
    in_time (timeout b) (clock b + 2000) (rx b) ->
    exists b',
      enterString b = Some b' /\
      tx b' = (tx b ++ string_of_list_ascii (map snd (rx b)))%string /\
      rx b' = [] /\
      clock b' = read_until (clock b + 2000) (rx b) + timeout b.
Proof.
  intros b Hav Hpace.
  unfold enterString, while_available.
  cbn [delay set_clock rx clock timeout length drain].
  rewrite Hav, (readString_in_time _ _ _ Hpace), drain_nil.
  eexists. split; [reflexivity|]. by split_and!.
Qed.

(** An instance of X8: a key every 900 ms, against a timeout of 1000 ms. *)
Lemma enterString_echoes_witness :
  exists b',
    enterString (mkBoard 0 [(1500, "o"%char); (2400, "k"%char); (3300, "!"%char)] 1000
                   EmptyString ∅ 0 [] (mk_tm 0 0 0 0 0 0 0 0 0)) = Some b' /\
    tx b' = "ok!"%string /\ rx b' = [] /\ clock b' = 4300.
Proof.
  apply (enterString_echoes
           (mkBoard 0 [(1500, "o"%char); (2400, "k"%char); (3300, "!"%char)] 1000
              EmptyString ∅ 0 [] (mk_tm 0 0 0 0 0 0 0 0 0)) eq_refl).
  cbn. repeat split; first [right; reflexivity | left; discriminate].
Defined.



(** ** Decimal numerals *)

Lemma is_digit_code (c : ascii) : is_digit c = true -> 48 <= code c <= 57.
Proof. unfold is_digit. intros [?%Z.leb_le ?%Z.leb_le]%andb_true_iff. by split. Qed.

Lemma is_digit_not_other (c : ascii) :
  is_digit c = true -> is_skip c = false /\ is_minus c = false /\ isspace c = false /\
                       Ascii.eqb c "+" = false.
Proof.
  intros Hc%is_digit_code. unfold is_skip, is_minus, NO_SKIP_CHAR, isspace.
  split_and!.
  - destruct (Ascii.eqb_spec c "001") as [->|]; [change (code "001") with 1 in Hc; lia|done].
  - destruct (Ascii.eqb_spec c "-") as [->|]; [change (code "-") with 45 in Hc; lia|done].
  - revert Hc. generalize (code c). intros n Hn.
    apply orb_false_iff. split; [apply Z.eqb_neq; lia|].
    apply andb_false_iff. right. apply Z.leb_gt. lia.
  - destruct (Ascii.eqb_spec c "+") as [->|]; [change (code "+") with 43 in Hc; lia|done].
Qed.

Lemma wrap_i32_mod (z : Z) : wrap_i32 z mod 2 ^ 32 = z mod 2 ^ 32.
Proof.
  unfold wrap_i32.
  rewrite <- (Zminus_mod_idemp_l ((z + 2 ^ 31) mod 2 ^ 32)), Zmod_mod, Zminus_mod_idemp_l.
  f_equal. lia.
Qed.

Lemma wrap_i32_congr (x y : Z) : x mod 2 ^ 32 = y mod 2 ^ 32 -> wrap_i32 x = wrap_i32 y.
Proof.
  intros H. unfold wrap_i32.
  by rewrite <- (Zplus_mod_idemp_l x), H, Zplus_mod_idemp_l.
Qed.

Lemma wrap_i32_step (v d : Z) : wrap_i32 (wrap_i32 v * 10 + d) = wrap_i32 (v * 10 + d).
Proof.
  apply wrap_i32_congr.
  rewrite <- (Zplus_mod_idemp_l (wrap_i32 v * 10)), <- (Zmult_mod_idemp_l (wrap_i32 v)).
  rewrite wrap_i32_mod, Zmult_mod_idemp_l, Zplus_mod_idemp_l. done.
Qed.

Lemma wrap_i32_opp (v : Z) : wrap_i32 (- wrap_i32 v) = wrap_i32 (- v).
Proof.
  apply wrap_i32_congr.
  rewrite <- (Z.sub_0_l (wrap_i32 v)), <- (Z.sub_0_l v).
  by rewrite <- Zminus_mod_idemp_r, wrap_i32_mod, Zminus_mod_idemp_r.
Qed.

(** Over digits that are in the buffer, the loop of [parseInt] runs to the
    end of the line and computes their value, in [long] arithmetic. *)
Lemma parseInt_loop_digits (tmo clk : Z) (rest : rxline) :
  forall (c : ascii) (neg : bool) (x : Z),
    Forall (fun p => p.1 <= clk) rest ->
    Forall (fun p => is_digit p.2 = true) rest ->
    parseInt_step c (neg, 0) = (neg || is_minus c, wrap_i32 x) ->
    parseInt_loop tmo c clk rest (neg, 0) =
    ((neg || is_minus c,
      wrap_i32 (fold_left (fun v c => v * 10 + (code c - 48)) (map snd rest) x)),
     clk + tmo, []).
Proof.
  cut (forall (c : ascii) acc (neg' : bool) (x : Z),
    Forall (fun p => p.1 <= clk) rest ->
    Forall (fun p => is_digit p.2 = true) rest ->
    parseInt_step c acc = (neg', wrap_i32 x) ->
    parseInt_loop tmo c clk rest acc =
    ((neg', wrap_i32 (fold_left (fun v c => v * 10 + (code c - 48)) (map snd rest) x)),
     clk + tmo, [])).
  { intros H c neg x. apply H. }
  induction rest as [|[a c1] rest IH]; intros c acc neg' x Harr Hdig Hstep.
  - cbn [parseInt_loop map fold_left]. by rewrite Hstep.
  - apply Forall_cons in Harr as [Ha Harr]. apply Forall_cons in Hdig as [Hc1 Hdig].
    cbn in Ha, Hc1. destruct (is_digit_not_other c1 Hc1) as (Hs & Hm & _).
    rewrite parseInt_loop_more; [|by apply arrived_true|by rewrite Hc1].
    cbn [map snd fold_left]. apply IH; [done..|].
    rewrite Hstep. unfold parseInt_step. rewrite Hs, Hm, Hc1.
    f_equal. rewrite <- Z.add_sub_assoc. apply wrap_i32_step.
Qed.

(** X10.  [enterInteger] reads decimal numerals: with an optional ['-'] and
    one or more digits in the buffer when the reading starts, it reports
    the number they denote, reduced to the 32 bits of a [long] when it does
    not fit. *)
Theorem enterInteger_reads_numerals :
  forall (b : Board) (neg : bool) (ds : list ascii),
    ds <> [] ->
    Forall (fun c => is_digit c = true) ds ->
    map snd (rx b) = (if neg then ["-"%char] else []) ++ ds ->
    Forall (fun p => p.1 <= clock b + 2000) (rx b) ->
    exists b',
      enterInteger b = Some b' /\
      tx b' = (tx b ++ snprintf 32
                 (fmt_d (wrap_i32 (if neg then - decimal_value ds else decimal_value ds))
                  ++ " was entered "))%string /\
      rx b' = [].
Proof.
  intros b neg ds Hne Hds Htext Harr.
  assert (P : parseInt (timeout b) (clock b + 2000) (rx b) =
              (wrap_i32 (if neg then - decimal_value ds else decimal_value ds),
               clock b + 2000 + timeout b, [])).
  { unfold parseInt, decimal_value.
    destruct (rx b) as [|[a c] rest]; [by destruct neg, ds|].
    apply Forall_cons in Harr as [Ha%arrived_true Harr]. cbn in Ha.
    destruct neg; cbn [map snd app] in Htext.
    - injection Htext as -> Hrest. rewrite peekNextDigit_hit by done.
      assert (Hd : Forall (fun p => is_digit p.2 = true) rest).
      { apply Forall_forall. intros p Hp. eapply Forall_forall in Hds; [exact Hds|].
        rewrite <- Hrest. by apply (list_elem_of_fmap_2 snd). }
      rewrite (parseInt_loop_digits _ _ rest "-" false 0 Harr Hd eq_refl).
      cbn [orb is_minus]. rewrite Hrest. change (Ascii.eqb "-" "-") with true. cbv iota.
      by rewrite wrap_i32_opp.
    - destruct ds as [|d ds]; [done|]. injection Htext as -> Hrest.
      apply Forall_cons in Hds as [Hd Hds].
      destruct (is_digit_not_other d Hd) as (Hs & Hm & _).
      rewrite peekNextDigit_hit by (done || by rewrite Hd, orb_true_r).
      assert (Hd' : Forall (fun p => is_digit p.2 = true) rest).
      { apply Forall_forall. intros p Hp. eapply Forall_forall in Hds; [exact Hds|].
        rewrite <- Hrest. by apply (list_elem_of_fmap_2 snd). }
      assert (Hstep : parseInt_step d (false, 0)
                      = (false || is_minus d, wrap_i32 (0 * 10 + (code d - 48)))).
      { unfold parseInt_step. by rewrite Hs, Hm, Hd. }
      rewrite (parseInt_loop_digits _ _ rest d false _ Harr Hd' Hstep).
      rewrite Hm, Hrest. reflexivity. }
  assert (Hav : available (clock b + 2000) (rx b) = true).
  { destruct (rx b) as [|[a c] rest]; [by destruct neg, ds|].
    apply Forall_cons in Harr as [Ha _]. by apply arrived_true. }
  unfold enterInteger, while_available.
  cbn [delay set_clock rx clock timeout length drain].
  rewrite Hav, P, drain_nil.
  eexists. split; [reflexivity|]. by split.
Qed.

(** An instance of X10: "-4294967254" does not fit a [long] and is reported
    as 42. *)
Lemma enterInteger_reads_numerals_witness :
  exists b',
    enterInteger (example_board 0 "-4294967254") = Some b' /\
    tx b' = "42 was entered "%string /\ rx b' = [].
Proof.
  apply (enterInteger_reads_numerals (example_board 0 "-4294967254") true
           (list_ascii_of_string "4294967254")).
  - discriminate.
  - repeat (constructor; [reflexivity|]). constructor.
  - reflexivity.
  - cbn. repeat (constructor; [discriminate|]). constructor.
Defined.

(** ** The menu on the screen *)

Lemma tx_println_lines {X : Type} (f : X -> string) (xs : list X) (b : Board) :
  fold_left (fun b x => Serial_println (f x) b) xs b =
  Serial_print (fold_right (fun x s => f x ++ CR ++ LF ++ s) EmptyString xs)%string b.
Proof.
  revert b. induction xs as [|x xs IH]; intros b; cbn [fold_left fold_right].
  - unfold Serial_print. rewrite append_nil_r. by destruct b.
  - rewrite IH. unfold Serial_println, Serial_print. cbn [set_tx tx].
    by rewrite !append_assoc.
Qed.

(** X11.  [showMenu] prints the title, then the text of every item of the
    table in the order of the table, each followed by CR LF, then the
    prompt; it changes nothing but the serial output. *)
Theorem showMenu_lists_the_table :
  forall (Item : Type) (item_txt : Item -> string) (st : State Item),
    showMenu item_txt st =
    on_board
      (Serial_print
         ((LF ++ "---------------" ++ LF ++ " CLI Menu Demo " ++ LF ++ "---------------" ++ LF)
          ++ fold_right (fun m s => item_txt m ++ CR ++ LF ++ s) EmptyString (menu st)
          ++ LF ++ "Press a key: ")%string)
      st.
Proof.
  intros Item item_txt st. rewrite showMenu_board. unfold on_board. cbv beta.
  rewrite tx_println_lines. unfold Serial_print. cbn [set_tx tx].
  by rewrite !append_assoc.
Qed.

(** ** The heartbeat flag *)

Lemma Main_invoke_flag (a : Main.Action) (arg : string) (st st' : Main.St) :
  Main.invoke a arg st = Some st' ->
  heartbeatEnabled st' =
    match a with
    | Main.A_toggleHeartbeat => negb (heartbeatEnabled st)
    | _ => heartbeatEnabled st
    end.
Proof.
  intros H. destruct a;
    try (by apply Main_invoke_frame in H as (_ & _ & ->)).
  cbn in H. injection H as <-. unfold toggleHeartbeat. cbn.
  by destruct (negb (heartbeatEnabled st)).
Qed.

Lemma CliMenu_invoke_flag (a : CliMenu.Action) (st st' : CliMenu.St) :
  CliMenu.invoke a st = Some st' ->
  heartbeatEnabled st' =
    match a with
    | CliMenu.A_toggleHeartbeat => negb (heartbeatEnabled st)
    | _ => heartbeatEnabled st
    end.
Proof.
  intros H. destruct a;
    try (by apply CliMenu_invoke_frame in H as (_ & _ & ->)).
  cbn in H. injection H as <-. unfold toggleHeartbeat. cbn.
  by destruct (negb (heartbeatEnabled st)).
Qed.

(** X12.  With the table as declared, [doMenu] changes the heartbeat flag
    exactly when the key read is [t], and then negates it: no other key,
    and no text typed into an action, switches the heartbeat. *)
Theorem only_key_t_toggles :
  (forall st st' : Main.St,
     menu st = Main.menu -> Main.doMenu st = Some st' ->
     heartbeatEnabled st' =
       (if Ascii.eqb (char_of_read (read (clock (board st)) (rx (board st))).1) "t"
        then negb (heartbeatEnabled st) else heartbeatEnabled st)) /\
  (forall st st' : CliMenu.St,
     menu st = CliMenu.menu -> CliMenu.doMenu st = Some st' ->
     heartbeatEnabled st' =
       (if Ascii.eqb (char_of_read (read (clock (board st)) (rx (board st))).1) "t"
        then negb (heartbeatEnabled st) else heartbeatEnabled st)).
Proof.
  split; intros st st' Hmenu.
  - unfold Main.doMenu, doMenu.
    destruct (read (clock (board st)) (rx (board st))) as [r l]. cbn [fst].
    generalize (char_of_read r). intros k.
    cbn [on_board menu]. rewrite Hmenu. unfold Main.menu. cbn [scan Main.key].
    repeat match goal with
           | |- context [Ascii.eqb k ?c] => destruct (Ascii.eqb_spec k c) as [->|?]
           end;
      try (intros H; apply Main_invoke_flag in H; exact H);
      try (intros [= <-]; reflexivity).
  - unfold CliMenu.doMenu, doMenu.
    destruct (read (clock (board st)) (rx (board st))) as [r l]. cbn [fst].
    generalize (char_of_read r). intros k.
    cbn [on_board menu]. rewrite Hmenu. unfold CliMenu.menu. cbn [scan CliMenu.key].
    repeat match goal with
           | |- context [Ascii.eqb k ?c] => destruct (Ascii.eqb_spec k c) as [->|?]
           end;
      try (intros H; apply CliMenu_invoke_flag in H; exact H);
      try (intros [= <-]; reflexivity).
Qed.

(** An instance of X12: the key [i] and the text "t" typed into
    [enterInteger] leave the heartbeat on. *)
Lemma only_key_t_toggles_witness :
  exists st',
    CliMenu.doMenu (boot CliMenu.menu (example_board 0 "it")) = Some st' /\
    heartbeatEnabled st' = true.
Proof.
  destruct only_key_t_toggles as [_ H].
  destruct (CliMenu.doMenu (boot CliMenu.menu (example_board 0 "it"))) as [st'|] eqn:E;
    [|vm_compute in E; discriminate E].
  exists st'. split; [reflexivity|].
  exact (H (boot CliMenu.menu (example_board 0 "it")) st' eq_refl E).
Defined.

(** ** The timeout across the loop *)

Lemma Main_invoke_timeout_kept (a : Main.Action) (arg : string) (st st' : Main.St) :
  0 <= timeout (board st) < 2 ^ 32 ->
  Main.invoke a arg st = Some st' -> timeout (board st') = timeout (board st).
Proof.
  intros Ht.
  assert (Ha : a = Main.A_setDateTime \/ a <> Main.A_setDateTime)
    by (destruct a; (by left) || (by right)).
  destruct Ha as [->|Ha]; [|by apply Main_invoke_timeout].
  cbn [Main.invoke]. intros (b' & H & ->)%try_on_board_Some. cbn [board].
  destruct (setDateTime_returns (board st)) as (str & clk & l & _ & E & _).
  rewrite E in H. injection H as <-.
  rewrite showDateTime_timeout. cbn [timeout settimeofday Serial_setTimeout].
  rewrite wrap_u32_idem. by apply wrap_u32_small.
Qed.

Section TimeoutKept.
Context {Item : Type}.
Variable item_key : Item -> ascii.
Variable item_call : Item -> State Item -> option (State Item).
Variable clear_line : Board -> Board.
Variable P : Z -> Prop.
Hypothesis call_timeout :
  forall m s s', P (timeout (board s)) -> item_call m s = Some s' ->
                 timeout (board s') = timeout (board s).
Hypothesis clear_timeout : forall b, timeout (clear_line b) = timeout b.

Lemma scan_timeout (items : list Item) (k : ascii) (st st' : State Item) :
  P (timeout (board st)) ->
  scan item_key item_call items k st = Some st' -> timeout (board st') = timeout (board st).
Proof using call_timeout.
  intros HP. induction items as [|x items IH]; cbn [scan]; [by intros [= <-]|].
  destruct (Ascii.eqb k (item_key x)); [|done].
  intros H. by apply call_timeout in H.
Qed.

Lemma loop_timeout (st st' : State Item) :
  P (timeout (board st)) ->
  loop item_key item_call clear_line st = Some st' ->
  timeout (board st') = timeout (board st).
Proof using call_timeout clear_timeout.
  intros HP H. apply loop_cases in H as (st1 & H1 & ->).
  assert (E : timeout (board st1) = timeout (board st)).
  { destruct (available (clock (board st)) (rx (board st))); [|by subst].
    unfold doMenu in H1. destruct (read (clock (board st)) (rx (board st))) as [r l].
    apply scan_timeout in H1; cbn [on_board board set_rx timeout] in *;
      rewrite ?clear_timeout in *; done. }
  by destruct (heartbeatEnabled st1).
Qed.
End TimeoutKept.

(** X13.  A pass of [loop] leaves the timeout of the serial port as it was
    (an [unsigned long], in main.cpp, where [setDateTime] changes it and sets
    it back): the longer timeout of [setDateTime] never reaches the other
    actions. *)
Theorem loop_keeps_the_timeout :
  (forall st st' : Main.St,
     0 <= timeout (board st) < 2 ^ 32 -> Main.loop st = Some st' ->
     timeout (board st') = timeout (board st)) /\
  (forall st st' : CliMenu.St,
     CliMenu.loop st = Some st' -> timeout (board st') = timeout (board st)).
Proof.
  split; intros st st'.
  - apply (loop_timeout Main.key Main.call CLEAR_LINE (fun t => 0 <= t < 2 ^ 32)); [|done].
    intros m s s'. apply Main_invoke_timeout_kept.
  - apply (loop_timeout CliMenu.key CliMenu.call (Serial_print CLR_LINE) (fun _ => True));
      [|done..].
    intros m s s' _. apply CliMenu_invoke_timeout.
Qed.

(** An instance of X13: the pass of [loop] of main.cpp that sets the date. *)
Lemma loop_keeps_the_timeout_witness :
  exists st',
    Main.loop (boot Main.menu (example_board 0 "d2024 10 24 12 30 00")) = Some st' /\
    timeout (board st') = 1000.
Proof.
  destruct loop_keeps_the_timeout as [H _].
  destruct (Main.loop (boot Main.menu (example_board 0 "d2024 10 24 12 30 00")))
    as [st'|] eqn:E; [|vm_compute in E; discriminate E].
  exists st'. split; [reflexivity|].
  apply (H (boot Main.menu (example_board 0 "d2024 10 24 12 30 00")) st');
    [split; [discriminate|reflexivity]|exact E].
Defined.

(** ** The heartbeat in time *)

(** X14.  Between two wraps of [millis()], [heartbeat] repeats with its
    period: one period later it writes the same level. *)
Theorem heartbeat_is_periodic :
  forall (pin period pulseWidth : Z) (b : Board),
    0 < period -> millis b + period < 2 ^ 32 ->
    pins (heartbeat pin period pulseWidth (delay period b)) !! pin =
    pins (heartbeat pin period pulseWidth b) !! pin.
Proof.
  intros pin period pulseWidth b Hp Hw. unfold heartbeat, digitalWrite.
  cbn [pins set_pins]. rewrite !lookup_insert_eq. do 2 f_equal.
  unfold millis, delay, wrap_u32 in *. cbn [clock set_clock].
  assert (Hb : 0 <= clock b mod 2 ^ 32 < 2 ^ 32) by (apply Z.mod_pos_bound; lia).
  rewrite <- Zplus_mod_idemp_l, (Z.mod_small (clock b mod 2 ^ 32 + period)) by lia.
  rewrite <- (Z.mul_1_l period) at 1. by rewrite Z.mod_add by lia.
Qed.

(** An instance of X14: 1015 ms and 2015 ms after boot. *)
Lemma heartbeat_is_periodic_witness :
  pins (heartbeat LED_BUILTIN 1000 20 (set_clock 2015 (example_board 0 EmptyString)))
    !! LED_BUILTIN =
  pins (heartbeat LED_BUILTIN 1000 20 (set_clock 1015 (example_board 0 EmptyString)))
    !! LED_BUILTIN.
Proof.
  exact (heartbeat_is_periodic LED_BUILTIN 1000 20
           (set_clock 1015 (example_board 0 EmptyString)) eq_refl eq_refl).
Defined.

(** ** The fields of the date *)

Lemma wrap_i32_small (z : Z) : - 2 ^ 31 <= z < 2 ^ 31 -> wrap_i32 z = z.
Proof. intros H. unfold wrap_i32. rewrite Z.mod_small; lia. Qed.

(** [%2d] and [%4d] on as many digits take just these, whatever follows. *)
Lemma scan_d_2 (a b : ascii) (s : list ascii) :
  is_digit a = true -> is_digit b = true ->
  scan_d 2 (a :: b :: s) = Some (decimal_value [a; b], s).
Proof.
  intros Ha Hb.
  destruct (is_digit_not_other a Ha) as (_ & Hm & Hsp & Hpl).
  unfold is_minus in Hm. unfold scan_d. cbn [skip_space]. rewrite Hsp, Hm, Hpl.
  cbn [scan_digits]. by rewrite Ha, Hb.
Qed.

Lemma scan_d_4 (a b c d : ascii) (s : list ascii) :
  is_digit a = true -> is_digit b = true -> is_digit c = true -> is_digit d = true ->
  scan_d 4 (a :: b :: c :: d :: s) = Some (decimal_value [a; b; c; d], s).
Proof.
  intros Ha Hb Hc Hd.
  destruct (is_digit_not_other a Ha) as (_ & Hm & Hsp & Hpl).
  unfold is_minus in Hm. unfold scan_d. cbn [skip_space]. rewrite Hsp, Hm, Hpl.
  cbn [scan_digits]. by rewrite Ha, Hb, Hc, Hd.
Qed.

Lemma decimal_value_2 (a b : ascii) :
  is_digit a = true -> is_digit b = true -> 0 <= decimal_value [a; b] <= 99.
Proof.
  intros Ha%is_digit_code Hb%is_digit_code. unfold decimal_value. cbn [fold_left]. lia.
Qed.

Lemma decimal_value_4 (a b c d : ascii) :
  is_digit a = true -> is_digit b = true -> is_digit c = true -> is_digit d = true ->
  0 <= decimal_value [a; b; c; d] <= 9999.
Proof.
  intros Ha%is_digit_code Hb%is_digit_code Hc%is_digit_code Hd%is_digit_code.
  unfold decimal_value. cbn [fold_left]. lia.
Qed.

(** A text without a NUL is its own C string. *)
Lemma c_str_no_NUL (l : list ascii) :
  Forall (fun c => c <> "000"%char) l -> c_str (string_of_list_ascii l) = l.
Proof.
  induction 1 as [|c l Hc _ IH]; [reflexivity|].
  cbn [string_of_list_ascii c_str].
  destruct (Ascii.eqb_spec c "000") as [->|_]; [done|]. by rewrite IH.
Qed.

Lemma is_digit_not_NUL (c : ascii) : is_digit c = true -> c <> "000"%char.
Proof. intros H%is_digit_code ->. change (code "000") with 0 in H. lia. Qed.

(** The text of a date: digits, and between the fields a character that is
    not NUL. *)
Lemma c_str_date (y1 y2 y3 y4 m1 m2 d1 d2 h1 h2 n1 n2 s1 s2 c1 c2 c3 c4 c5 : ascii) :
  Forall (fun c => is_digit c = true)
         [y1; y2; y3; y4; m1; m2; d1; d2; h1; h2; n1; n2; s1; s2] ->
  Forall (fun c => c <> "000"%char) [c1; c2; c3; c4; c5] ->
  c_str (string_of_list_ascii
           [y1; y2; y3; y4; c1; m1; m2; c2; d1; d2; c3; h1; h2; c4; n1; n2; c5; s1; s2]) =
  [y1; y2; y3; y4; c1; m1; m2; c2; d1; d2; c3; h1; h2; c4; n1; n2; c5; s1; s2].
Proof.
  intros Hd Hc. apply c_str_no_NUL.
  repeat (apply Forall_cons in Hd as [?%is_digit_not_NUL Hd]).
  repeat (apply Forall_cons in Hc as [? Hc]).
  repeat (constructor; [assumption|]). constructor.
Qed.

(** X15.  [setDateTime] takes the date as four digits of the year and two
    digits each of month, day, hour, minute and second, with one character
    between two fields, and it does not matter which character, as long
    as it is not the NUL that ends a C string: blank, dash, colon, even a
    digit.  The month is lowered by 1 and the year by 1900, and the
    members [sscanf] does not set are left as they were. *)
Theorem date_fields_any_delimiter :
  forall (g : tm) (y1 y2 y3 y4 m1 m2 d1 d2 h1 h2 n1 n2 s1 s2 : ascii)
         (c1 c2 c3 c4 c5 : ascii),
    Forall (fun c => is_digit c = true)
           [y1; y2; y3; y4; m1; m2; d1; d2; h1; h2; n1; n2; s1; s2] ->
    Forall (fun c => c <> "000"%char) [c1; c2; c3; c4; c5] ->
    Main.setDateTime_tm g
      (string_of_list_ascii
         [y1; y2; y3; y4; c1; m1; m2; c2; d1; d2; c3; h1; h2; c4; n1; n2; c5; s1; s2]) =
    mk_tm (decimal_value [s1; s2]) (decimal_value [n1; n2]) (decimal_value [h1; h2])
          (decimal_value [d1; d2]) (decimal_value [m1; m2] - 1)
          (decimal_value [y1; y2; y3; y4] - 1900)
          (tm_wday g) (tm_yday g) (tm_isdst g).
Proof.
  intros g y1 y2 y3 y4 m1 m2 d1 d2 h1 h2 n1 n2 s1 s2 c1 c2 c3 c4 c5 H Hc.
  unfold Main.setDateTime_tm. rewrite c_str_date by done.
  repeat (apply Forall_cons in H as [? H]).
  unfold Main.date_format. cbn [sscanf].
  rewrite scan_d_4 by done. repeat (rewrite scan_d_2 by done; cbn [sscanf]).
  cbn [stored nth tm_sec tm_min tm_hour tm_mday tm_mon tm_year tm_wday tm_yday tm_isdst].
  pose proof (decimal_value_2 m1 m2 ltac:(done) ltac:(done)).
  pose proof (decimal_value_4 y1 y2 y3 y4 ltac:(done) ltac:(done) ltac:(done) ltac:(done)).
  rewrite !wrap_i32_small by lia. reflexivity.
Qed.

(** An instance of X15: the date written with dashes, a T and colons. *)
Lemma date_fields_any_delimiter_witness :
  Main.setDateTime_tm (mk_tm 0 0 0 0 0 0 0 0 0) "2024-10-24T12:30:00"
  = mk_tm 0 30 12 24 9 124 0 0 0.
Proof.
  apply (date_fields_any_delimiter (mk_tm 0 0 0 0 0 0 0 0 0)
           "2" "0" "2" "4" "1" "0" "2" "4" "1" "2" "3" "0" "0" "0" "-" "-" "T" ":" ":").
  - repeat (constructor; [reflexivity|]). constructor.
  - repeat (constructor; [discriminate|]). constructor.
Defined.

(** ** A number followed by something else *)

(** Over digits in the buffer that are followed, in the buffer, by a
    character that ends the number, the loop of [parseInt] stops in front of
    that character. *)
Lemma parseInt_loop_digits_then (tmo clk a : Z) (c' : ascii) (tail : rxline) (ds : rxline) :
  forall (c : ascii) (acc : bool * Z),
    Forall (fun p => p.1 <= clk) ds ->
    Forall (fun p => is_digit p.2 = true) ds ->
    a <= clk -> (is_digit c' || is_skip c') = false ->
    exists acc',
      parseInt_loop tmo c clk (ds ++ (a, c') :: tail) acc = (acc', clk, (a, c') :: tail).
Proof.
  induction ds as [|[a1 c1] ds IH]; intros c acc Harr Hdig Ha Hc'.
  - cbn [app]. rewrite parseInt_loop_stop; [by eexists|by apply arrived_true|done].
  - apply Forall_cons in Harr as [Ha1 Harr]. apply Forall_cons in Hdig as [Hc1 Hdig].
    cbn in Ha1, Hc1. cbn [app].
    rewrite parseInt_loop_more; [|by apply arrived_true|by rewrite Hc1].
    by apply IH.
Qed.

(** X16.  A number that is followed by one more character, a line feed
    for one, is lost: when digits and then a character that is neither a
    digit nor ['-'] are in the buffer when the reading starts,
    [enterInteger] parses the number in one pass of its loop, parses the
    character that is left in a second pass, and reports 0. *)
Theorem enterInteger_loses_terminated_number :
  forall (b : Board) (ds : list ascii) (c : ascii),
    ds <> [] ->
    Forall (fun d => is_digit d = true) ds ->
    is_digit c = false -> is_minus c = false -> is_skip c = false ->
    map snd (rx b) = ds ++ [c] ->
    Forall (fun p => p.1 <= clock b + 2000) (rx b) ->
    exists b',
      enterInteger b = Some b' /\
      tx b' = (tx b ++ "0 was entered ")%string /\
      rx b' = [].
Proof.
  intros b ds c Hne Hds Hc Hm Hs Htext Harr.
  destruct (rx b) as [|[a0 d0] rest] eqn:Hrx; [by destruct ds|].
  destruct ds as [|d ds]; [done|]. cbn [map snd app] in Htext. injection Htext as -> Hrest.
  apply Forall_cons in Hds as [Hd Hds]. apply Forall_cons in Harr as [Ha0 Harr].
  cbn in Ha0.
  (* the rest of the line: digits, then the character *)
  assert (Hsplit : exists dl a, rest = dl ++ [(a, c)] /\ map snd dl = ds).
  { clear -Hrest. revert ds Hrest. induction rest as [|[a x] rest IH]; intros ds Hrest.
    - by destruct ds.
    - destruct ds as [|d' ds]; cbn [map snd app] in Hrest; injection Hrest as -> Hrest.
      + destruct rest; [|done]. by exists [], a.
      + destruct (IH _ Hrest) as (dl & a' & -> & <-). by exists ((a, d') :: dl), a'. }
  destruct Hsplit as (dl & a & -> & <-).
  apply Forall_app in Harr as [Hdl [Ha _]%Forall_cons]. cbn in Ha.
  assert (Hdig : Forall (fun p => is_digit p.2 = true) dl).
  { apply Forall_forall. intros p Hp. eapply Forall_forall in Hds; [exact Hds|].
    by apply (list_elem_of_fmap_2 snd). }
  destruct (parseInt_loop_digits_then (timeout b) (clock b + 2000) a c [] dl d (false, 0)
              Hdl Hdig Ha) as [[neg v] Hloop]; [by rewrite Hc, Hs|].
  assert (P1 : exists v1, parseInt (timeout b) (clock b + 2000) ((a0, d) :: dl ++ [(a, c)])
                          = (v1, clock b + 2000, [(a, c)])).
  { unfold parseInt.
    rewrite peekNextDigit_hit; [|by apply arrived_true|by rewrite Hd, orb_true_r].
    rewrite Hloop. by eexists. }
  destruct P1 as [v1 P1].
  assert (P2 : parseInt (timeout b) (clock b + 2000) [(a, c)]
               = (0, clock b + 2000 + timeout b, [])).
  { unfold parseInt.
    rewrite peekNextDigit_discard; [done|by apply arrived_true|by rewrite Hc, Hm]. }
  unfold enterInteger, while_available.
  cbn [delay set_clock rx clock timeout]. rewrite Hrx.
  cbn [length drain available]. rewrite (arrived_true _ _ Ha0), P1.
  rewrite length_app. cbn [length]. rewrite Nat.add_1_r. cbn [drain available].
  rewrite (arrived_true _ _ Ha), P2. cbn [drain available].
  eexists. split; [reflexivity|]. by split.
Qed.

(** An instance of X16: "42" and a line feed. *)
Lemma enterInteger_loses_terminated_number_witness :
  exists b',
    enterInteger (example_board 0 ("42" ++ LF)) = Some b' /\
    tx b' = "0 was entered "%string /\ rx b' = [].
Proof.
  apply (enterInteger_loses_terminated_number (example_board 0 ("42" ++ LF))
           (list_ascii_of_string "42") "010").
  - discriminate.
  - repeat (constructor; [reflexivity|]). constructor.
  - reflexivity.
  - reflexivity.
  - reflexivity.
  - reflexivity.
  - cbn. repeat (constructor; [discriminate|]). constructor.
Defined.

(** ** The date set is the date shown *)

Lemma nth_bounded (n : nat) (l : list Z) (hi : Z) :
  0 <= hi -> Forall (fun x => x <= hi) l -> nth n l 0 <= hi.
Proof.
  intros Hhi Hl. revert n. induction Hl as [|x l Hx _ IH]; intros [|n]; cbn [nth]; auto.
Qed.

Lemma valid_date_bounds (y m d : Z) :
  valid_date y m d = true -> 1 <= m <= 12 /\ 1 <= d <= 31.
Proof.
  unfold valid_date, month_lengths.
  intros [[[Hm1%Z.leb_le Hm2%Z.leb_le]%andb_true_iff Hd1%Z.leb_le]%andb_true_iff
          Hd2%Z.leb_le]%andb_true_iff.
  split; [by split|]. split; [done|].
  etrans; [exact Hd2|].
  apply nth_bounded; [lia|].
  destruct (is_leap y); repeat (constructor; [lia|]); constructor.
Qed.

(** A year is 365 or 366 days long. *)
Lemma days_to_year_succ (y : Z) :
  days_to_year (y + 1) = days_to_year y + (if is_leap y then 366 else 365).
Proof.
  unfold days_to_year, is_leap. replace (y + 1 - 1) with y by lia.
  destruct (Z.eqb_spec (y mod 4) 0), (Z.eqb_spec (y mod 100) 0), (Z.eqb_spec (y mod 400) 0);
    cbn [negb andb orb]; Z.div_mod_to_equations; lia.
Qed.

Lemma days_to_year_mono (y : Z) (n : nat) : days_to_year y <= days_to_year (y + Z.of_nat n).
Proof.
  induction n as [|n IH]; [by rewrite Z.add_0_r|].
  rewrite Nat2Z.inj_succ, <- Z.add_1_r, Z.add_assoc, days_to_year_succ.
  destruct (is_leap (y + Z.of_nat n)); lia.
Qed.

Lemma days_to_year_le (y y' : Z) : y <= y' -> days_to_year y <= days_to_year y'.
Proof.
  intros H. replace y' with (y + Z.of_nat (Z.to_nat (y' - y))) by lia.
  apply days_to_year_mono.
Qed.

(** The search for the year of a day finds it, when it starts in a year
    before and may go far enough. *)
Lemma year_of_day_found (fuel : nat) :
  forall y0 y r,
    y0 <= y < y0 + Z.of_nat fuel ->
    0 <= r < (if is_leap y then 366 else 365) ->
    year_of_day fuel y0 (days_to_year y - days_to_year y0 + r) = (y, r).
Proof.
  induction fuel as [|fuel IH]; intros y0 y r Hy Hr; [lia|].
  cbn [year_of_day].
  destruct (Z.eq_dec y y0) as [->|Hne].
  - rewrite Z.sub_diag, Z.add_0_l. by rewrite (proj2 (Z.ltb_lt _ _) (proj2 Hr)).
  - pose proof (days_to_year_succ y0) as Hs.
    pose proof (days_to_year_le (y0 + 1) y ltac:(lia)) as Hle.
    rewrite (proj2 (Z.ltb_ge _ _)) by lia.
    replace (days_to_year y - days_to_year y0 + r - (if is_leap y0 then 366 else 365))
      with (days_to_year y - days_to_year (y0 + 1) + r) by lia.
    apply IH; lia.
Qed.

(** The search for the month of a day of the year finds the month and the
    day of a date of the calendar. *)
Lemma month_of_day_found (y m d : Z) :
  valid_date y m d = true ->
  month_of_day (month_lengths y) 0 (days_to_month y (m - 1) + (d - 1)) = (m - 1, d - 1) /\
  0 <= days_to_month y (m - 1) + (d - 1) < (if is_leap y then 366 else 365).
Proof.
  intros Hv. destruct (valid_date_bounds y m d Hv) as [Hm Hd].
  unfold valid_date in Hv. apply andb_true_iff in Hv as [_ Hlen%Z.leb_le].
  unfold days_to_month. revert Hlen. unfold month_lengths.
  assert (Hcases : m = 1 \/ m = 2 \/ m = 3 \/ m = 4 \/ m = 5 \/ m = 6 \/ m = 7 \/ m = 8 \/
                   m = 9 \/ m = 10 \/ m = 11 \/ m = 12) by lia.
  destruct (is_leap y);
    repeat (destruct Hcases as [->|Hcases]); try subst m;
    match goal with
    | |- context [Z.to_nat (?k - 1)] =>
        let n := eval vm_compute in (Z.to_nat (k - 1)) in
        change (Z.to_nat (k - 1)) with n
    end;
    cbn [nth firstn fold_right month_of_day]; intros Hlen;
    repeat match goal with
           | |- context [?a <? ?b] => destruct (Z.ltb_spec a b); try lia
           end;
    (split; [f_equal; lia | lia]).
Qed.

(** [localtime] undoes [mktime] for the dates of the calendar from 1970 to
    2037, which a [time_t] holds: it finds back the members that were set,
    and the week day and the day of the year with them. *)
Lemma localtime_mktime (y m d h n s wd0 yd0 dst0 : Z) :
  1970 <= y < 2038 -> valid_date y m d = true ->
  0 <= h < 24 -> 0 <= n < 60 -> 0 <= s < 60 ->
  exists wd yd,
    mktime (mk_tm s n h d (m - 1) (y - 1900) wd0 yd0 dst0) =
      calendar_seconds (mk_tm s n h d (m - 1) (y - 1900) wd0 yd0 dst0) /\
    localtime (mktime (mk_tm s n h d (m - 1) (y - 1900) wd0 yd0 dst0)) =
    mk_tm s n h d (m - 1) (y - 1900) wd yd 0.
Proof.
  intros Hy Hv Hh Hn Hs. destruct (valid_date_bounds y m d Hv) as [Hm Hd].
  destruct (month_of_day_found y m d Hv) as [Hmonth Hr].
  set (r := days_to_month y (m - 1) + (d - 1)) in *.
  set (D := days_to_year y + r).
  assert (Hcal : calendar_seconds (mk_tm s n h d (m - 1) (y - 1900) wd0 yd0 dst0)
                 = D * 86400 + (h * 3600 + n * 60 + s)).
  { unfold calendar_seconds. cbn [tm_sec tm_min tm_hour tm_mday tm_mon tm_year].
    rewrite (Z.div_small (m - 1) 12), (Z.mod_small (m - 1) 12) by lia.
    replace (y - 1900 + 1900 + 0) with y by lia. subst D r. ring. }
  assert (HD : 0 <= D < 24837).
  { pose proof (days_to_year_le 1970 y ltac:(lia)) as H1.
    pose proof (days_to_year_le (y + 1) 2038 ltac:(lia)) as H2.
    pose proof (days_to_year_succ y) as H3.
    change (days_to_year 1970) with 0 in H1. change (days_to_year 2038) with 24837 in H2.
    subst D. lia. }
  assert (Hmk : mktime (mk_tm s n h d (m - 1) (y - 1900) wd0 yd0 dst0)
                = D * 86400 + (h * 3600 + n * 60 + s)).
  { unfold mktime. cbv zeta. rewrite Hcal. unfold fits_time_t.
    rewrite (proj2 (Z.leb_le _ _)), (proj2 (Z.ltb_lt _ _)) by lia. reflexivity. }
  assert (Hyear : year_of_day 400 (1970 + 400 * (D / 146097)) (D mod 146097) = (y, r)).
  { rewrite Z.div_small, Z.mod_small by lia. rewrite Z.mul_0_r, Z.add_0_r.
    replace D with (days_to_year y - days_to_year 1970 + r)
      by (change (days_to_year 1970) with 0; subst D; lia).
    apply year_of_day_found; [lia|done]. }
  assert (Hdiv : (D * 86400 + (h * 3600 + n * 60 + s)) / 86400 = D).
  { rewrite Z.div_add_l, (Z.div_small _ 86400) by lia. lia. }
  assert (Hmod : (D * 86400 + (h * 3600 + n * 60 + s)) mod 86400 = h * 3600 + n * 60 + s).
  { rewrite Z.add_comm, Z.mod_add by lia. apply Z.mod_small. lia. }
  rewrite Hmk. unfold localtime. rewrite Hdiv, Hmod, Hyear, Hmonth.
  exists ((D + 4) mod 7), r. split; [by rewrite Hcal|]. f_equal.
  - replace (h * 3600 + n * 60 + s) with (s + (h * 60 + n) * 60) by ring.
    rewrite Z.mod_add by lia. apply Z.mod_small. lia.
  - replace (h * 3600 + n * 60 + s) with (s + (h * 60 + n) * 60) by ring.
    rewrite Z.div_add, (Z.div_small s 60), Z.add_0_l by lia.
    rewrite Z.add_comm, Z.mod_add by lia. apply Z.mod_small. lia.
  - replace (h * 3600 + n * 60 + s) with (n * 60 + s + h * 3600) by ring.
    rewrite Z.div_add, (Z.div_small (n * 60 + s) 3600) by lia. lia.
  - lia.
Qed.

Lemma time_print (str : string) (b : Board) : time (Serial_print str b) = time b.
Proof. reflexivity. Qed.

(** X17.  [setDateTime] shows the date it has set: for a date of the
    calendar from 2017 to 2037 (the years that [getLocalTime] accepts and a
    [time_t] holds) and a time of the day, typed as digits with a character
    other than NUL between the fields and in the buffer when the reading
    starts, it sets the clock and prints, at once, that same date and time,
    with its day of the week. *)
Theorem setDateTime_shows_the_date_set :
  forall (b : Board) (y1 y2 y3 y4 m1 m2 d1 d2 h1 h2 n1 n2 s1 s2 : ascii)
         (c1 c2 c3 c4 c5 : ascii),
    let y := decimal_value [y1; y2; y3; y4] in
    let m := decimal_value [m1; m2] in
    let d := decimal_value [d1; d2] in
    let h := decimal_value [h1; h2] in
    let n := decimal_value [n1; n2] in
    let s := decimal_value [s1; s2] in
    Forall (fun c => is_digit c = true)
           [y1; y2; y3; y4; m1; m2; d1; d2; h1; h2; n1; n2; s1; s2] ->
    Forall (fun c => c <> "000"%char) [c1; c2; c3; c4; c5] ->
    2017 <= y < 2038 -> valid_date y m d = true -> h < 24 -> n < 60 -> s < 60 ->
    map snd (rx b) =
      [y1; y2; y3; y4; c1; m1; m2; c2; d1; d2; c3; h1; h2; c4; n1; n2; c5; s1; s2] ->
    Forall (fun p => p.1 <= clock b + 2000) (rx b) ->
    exists b' wd yd,
      Main.setDateTime b = Some b' /\
      time b' = calendar_seconds (mk_tm s n h d (m - 1) (y - 1900) 0 0 0) /\
      localtime (time b') = mk_tm s n h d (m - 1) (y - 1900) wd yd 0 /\
      tx b' = (tx b ++ strftime_B_d_Y_T_A (mk_tm s n h d (m - 1) (y - 1900) wd yd 0))%string.
Proof.
  intros b y1 y2 y3 y4 m1 m2 d1 d2 h1 h2 n1 n2 s1 s2 c1 c2 c3 c4 c5 y m d h n s
         Hdig Hnul Hy Hv Hh Hn Hs Htext Harr.
  assert (Htm : forall g,
    Main.setDateTime_tm g
      (string_of_list_ascii
         [y1; y2; y3; y4; c1; m1; m2; c2; d1; d2; c3; h1; h2; c4; n1; n2; c5; s1; s2]) =
    mk_tm s n h d (m - 1) (y - 1900) (tm_wday g) (tm_yday g) (tm_isdst g)).
  { intros g. unfold Main.setDateTime_tm. rewrite c_str_date by done.
    pose proof Hdig as H. repeat (apply Forall_cons in H as [? H]).
    unfold Main.date_format. cbn [sscanf].
    rewrite scan_d_4 by done. repeat (rewrite scan_d_2 by done; cbn [sscanf]).
    cbn [stored nth tm_sec tm_min tm_hour tm_mday tm_mon tm_year tm_wday tm_yday tm_isdst].
    fold y m d h n s.
    pose proof (decimal_value_2 m1 m2 ltac:(done) ltac:(done)) as Hm2. fold m in Hm2.
    rewrite !wrap_i32_small by lia. reflexivity. }
  assert (Hpos : 0 <= h /\ 0 <= n /\ 0 <= s).
  { pose proof Hdig as H. repeat (apply Forall_cons in H as [? H]).
    split_and!; [apply (decimal_value_2 h1 h2)|apply (decimal_value_2 n1 n2)
                |apply (decimal_value_2 s1 s2)]; done. }
  destruct (rx b) as [|[a c] l] eqn:Hrx; [discriminate Htext|].
  unfold Main.setDateTime, Main.setDateTime_read, while_available.
  cbn [Serial_setTimeout delay set_clock rx timeout clock Serial_getTimeout].
  rewrite Hrx. cbn [drain available length].
  pose proof Harr as Harr'. apply Forall_cons in Harr' as [Ha _]. cbn in Ha.
  rewrite (arrived_true _ _ Ha), (readString_all_arrived _ _ _ Harr), Htext. cbn [available].
  cbn [Serial_setTimeout set_rx set_clock delay uninit_tm]. rewrite Htm.
  destruct (localtime_mktime y m d h n s (tm_wday (uninit_tm b)) (tm_yday (uninit_tm b))
              (tm_isdst (uninit_tm b))) as (wd & yd & Hmk & Hlt); [lia|exact Hv|lia..|].
  clear Hv.
  set (g := mk_tm s n h d (m - 1) (y - 1900) (tm_wday (uninit_tm b)) (tm_yday (uninit_tm b))
              (tm_isdst (uninit_tm b))) in *.
  assert (Hsec : mktime g = calendar_seconds (mk_tm s n h d (m - 1) (y - 1900) 0 0 0))
    by (rewrite Hmk; unfold calendar_seconds; reflexivity).
  rewrite showDateTime_settimeofday by (rewrite Hlt; cbn [tm_year]; lia).
  eexists _, wd, yd. split; [reflexivity|].
  rewrite time_print, time_settimeofday, Hlt, <- Hsec.
  split; [reflexivity|]. split; [reflexivity|].
  cbn [tx Serial_print set_tx settimeofday Serial_setTimeout set_rx set_clock].
  reflexivity.
Qed.

(** An instance of X17: 29 February 2024, 23:59:59, written with dots. *)
Lemma setDateTime_shows_the_date_set_witness :
  exists b' wd yd,
    Main.setDateTime (example_board 0 "2024.02.29.23.59.59") = Some b' /\
    tx b' = strftime_B_d_Y_T_A (mk_tm 59 59 23 29 1 124 wd yd 0).
Proof.
  destruct (setDateTime_shows_the_date_set (example_board 0 "2024.02.29.23.59.59")
              "2" "0" "2" "4" "0" "2" "2" "9" "2" "3" "5" "9" "5" "9" "." "." "." "." ".")
    as (b' & wd & yd & H1 & _ & _ & H4).
  - repeat (constructor; [reflexivity|]). constructor.
  - repeat (constructor; [discriminate|]). constructor.
  - split; [discriminate|reflexivity].
  - reflexivity.
  - reflexivity.
  - reflexivity.
  - reflexivity.
  - reflexivity.
  - cbn. repeat (constructor; [discriminate|]). constructor.
  - exists b', wd, yd. split; [exact H1|exact H4].
Defined.
